(** * Auto-Rename-Bot: the rename engine of [plugins/file_rename.py]

    A shallow embedding of the text classifiers, the placeholder
    substitution, the duplicate-submission guard and the rename pipeline of
    [plugins/file_rename.py], together with the part of
    [helper/database.py] they call.

    Texts are lists of characters; a character is a code point below 256
    (the Latin-1 range), classified the way Python's [re] classifies [str]
    input. *)

From Stdlib Require Import ZArith Ascii String Bool Lia.
From stdpp Require Import gmap strings list.

Open Scope Z_scope.
Open Scope string_scope.
Open Scope list_scope.

(** ** Characters and texts *)

Definition text := list ascii.

Definition str (s : string) : text := list_ascii_of_string s.

Definition code (c : ascii) : N := N_of_ascii c.

Definition between (lo hi : N) (c : ascii) : bool :=
  (N.leb lo (code c) && N.leb (code c) hi)%bool.

(** [\d] on [str]: the decimal digits. *)
Definition is_digit (c : ascii) : bool := between 48 57 c.

(** [\s] on [str]: the characters for which [str.isspace] holds. *)
Definition is_space (c : ascii) : bool :=
  (between 9 13 c || between 28 32 c
   || N.eqb (code c) 133 || N.eqb (code c) 160)%bool.

Definition is_upper (c : ascii) : bool := between 65 90 c.
Definition is_lower (c : ascii) : bool := between 97 122 c.

(** [\w] on [str]: alphanumeric characters and the underscore. *)
Definition is_word (c : ascii) : bool :=
  (is_digit c || is_upper c || is_lower c || N.eqb (code c) 95
   || N.eqb (code c) 170 || between 178 179 c || N.eqb (code c) 181
   || between 185 186 c || between 188 190 c
   || between 192 214 c || between 216 246 c || between 248 255 c)%bool.

Definition lower (c : ascii) : ascii :=
  if is_upper c then ascii_of_N (code c + 32) else c.

(** Equality of two characters under [re.IGNORECASE]. *)
Definition ci_eqb (a b : ascii) : bool := Ascii.eqb (lower a) (lower b).

(** ** A backtracking matcher for the patterns of the tables

    The matcher follows the search order of Python's [re]: alternatives
    left to right, quantifiers greedy, the leftmost start position first.
    Quantifiers with a bound range over single-character classes, as they
    do in every pattern of the source. *)

Inductive regex : Type :=
| Eps
| Chr (p : ascii -> bool)
| Seq (r1 r2 : regex)
| Alt (r1 r2 : regex)
| Rep (p : ascii -> bool) (lo : nat) (hi : option nat)
| Opt (r : regex)
| Grp (i : nat) (r : regex)
| WordB.

(** Captures: group number and captured text, the most recent first. *)
Definition caps := list (nat * text).

Fixpoint group (c : caps) (i : nat) : option text :=
  match c with
  | [] => None
  | (j, w) :: c' => if Nat.eqb i j then Some w else group c' i
  end.

(** A continuation receives the text matched by the expression before it,
    the character before the current position, the rest of the input and
    the captures so far. *)
Definition cont := text -> option ascii -> text -> caps -> option caps.

Definition word_before (prev : option ascii) : bool :=
  match prev with Some c => is_word c | None => false end.

Definition word_after (s : text) : bool :=
  match s with c :: _ => is_word c | [] => false end.

Definition more (hi : option nat) : bool :=
  match hi with Some O => false | _ => true end.

Definition less (hi : option nat) : option nat :=
  match hi with Some n => Some (Nat.pred n) | None => None end.

Fixpoint rep (p : ascii -> bool) (lo : nat) (hi : option nat) (k : cont)
    (prev : option ascii) (s : text) (c : caps) {struct s} : option caps :=
  let stop := match lo with O => k [] prev s c | S _ => None end in
  match s with
  | x :: s' =>
      if (p x && more hi)%bool then
        match rep p (Nat.pred lo) (less hi) (fun w => k (x :: w))
                (Some x) s' c with
        | Some r => Some r
        | None => stop
        end
      else stop
  | [] => stop
  end.

Fixpoint m (r : regex) (k : cont) (prev : option ascii) (s : text)
    (c : caps) {struct r} : option caps :=
  match r with
  | Eps => k [] prev s c
  | Chr p =>
      match s with
      | x :: s' => if p x then k [x] (Some x) s' c else None
      | [] => None
      end
  | Seq r1 r2 =>
      m r1 (fun w1 p1 s1 c1 =>
              m r2 (fun w2 => k (w1 ++ w2)) p1 s1 c1) prev s c
  | Alt r1 r2 =>
      match m r1 k prev s c with
      | Some r => Some r
      | None => m r2 k prev s c
      end
  | Rep p lo hi => rep p lo hi k prev s c
  | Opt r1 =>
      match m r1 k prev s c with
      | Some r => Some r
      | None => k [] prev s c
      end
  | Grp i r1 => m r1 (fun w p1 s1 c1 => k w p1 s1 ((i, w) :: c1)) prev s c
  | WordB =>
      if xorb (word_before prev) (word_after s) then k [] prev s c else None
  end.

(** A match anchored at the current position. *)
Definition match_here (r : regex) (prev : option ascii) (s : text)
    : option caps :=
  m r (fun _ _ _ c => Some c) prev s [].

Fixpoint search_from (r : regex) (prev : option ascii) (s : text)
    : option caps :=
  match match_here r prev s with
  | Some c => Some c
  | None =>
      match s with
      | [] => None
      | x :: s' => search_from r (Some x) s'
      end
  end.

Fixpoint ngroups (r : regex) : nat :=
  match r with
  | Seq r1 r2 | Alt r1 r2 => Nat.max (ngroups r1) (ngroups r2)
  | Opt r1 => ngroups r1
  | Grp i r1 => Nat.max i (ngroups r1)
  | _ => O
  end.

(** [pattern.search(text)]: [None], or the tuple [match.groups()] of the
    leftmost match, a group that took no part being [None]. *)
Definition search (r : regex) (s : text) : option (list (option text)) :=
  match search_from r None s with
  | Some c => Some (map (group c) (seq 1 (ngroups r)))
  | None => None
  end.

(** Pattern syntax. *)
Definition seqs (rs : list regex) : regex := foldr Seq Eps rs.
Definition lit (s : string) : regex :=
  seqs (map (fun c => Chr (Ascii.eqb c)) (str s)).
Definition lit_ci (s : string) : regex :=
  seqs (map (fun c => Chr (ci_eqb c)) (str s)).
Definition alts (r : regex) (rs : list regex) : regex :=
  foldl Alt r rs.
Definition star (p : ascii -> bool) : regex := Rep p 0 None.
Definition plus (p : ascii -> bool) : regex := Rep p 1 None.
Definition one_of (s : string) (c : ascii) : bool :=
  existsb (Ascii.eqb c) (str s).
Definition one_of_ci (s : string) (c : ascii) : bool :=
  existsb (ci_eqb c) (str s).

(** ** Values and exceptions *)

Inductive exn : Type :=
| AttributeError (msg : text)
| TypeError
| ReError
| RuntimeError (msg : text)
| UnicodeDecodeError
| TimeoutError
| UnboundLocalError
| FloodWait (value : Z)
| OtherError (msg : text)
| CancelledError.

(** [asyncio.CancelledError] derives from [BaseException], not from
    [Exception]; the other exceptions derive from [Exception]. *)
Definition is_exception (e : exn) : bool :=
  match e with
  | CancelledError => false
  | _ => true
  end.

Inductive res (A : Type) : Type :=
| Return (a : A)
| Raise (e : exn).
Arguments Return {A} a.
Arguments Raise {A} e.

(** ** The pattern tables *)

(** An element of [SEASON_EPISODE_PATTERNS] is a compiled pattern or a
    pair of a compiled pattern and a tag. *)
Inductive table_entry : Type :=
| Pattern (r : regex)
| Tagged (r : regex) (tag : option text * text).

(** The table literal opens a parenthesis on each of its first five lines
    that it does not close; it is read here line by line, one entry per
    line: five compiled patterns, then two pairs. *)
Definition SEASON_EPISODE_PATTERNS : list table_entry :=
  [ Pattern (seqs [lit "S"; Grp 1 (plus is_digit);
                   Alt (lit "E") (lit "EP"); Grp 2 (plus is_digit)]);
    Pattern (seqs [lit "S"; Grp 1 (plus is_digit);
                   star (fun c => is_space c || Ascii.eqb c "-")%bool;
                   Alt (lit "E") (lit "EP"); Grp 2 (plus is_digit)]);
    Pattern (seqs [lit_ci "Season"; star is_space; Grp 1 (plus is_digit);
                   star is_space; lit_ci "Episode"; star is_space;
                   Grp 2 (plus is_digit)]);
    Pattern (seqs [lit "[S"; Grp 1 (plus is_digit); lit "][E";
                   Grp 2 (plus is_digit); lit "]"]);
    Pattern (seqs [lit "S"; Grp 1 (plus is_digit);
                   star (fun c => negb (is_digit c));
                   Grp 2 (plus is_digit)]);
    Tagged (seqs [alts (lit_ci "E") [lit_ci "EP"; lit_ci "Episode"];
                  star is_space; Grp 1 (plus is_digit)])
           (None, str "episode");
    Tagged (seqs [WordB; Grp 1 (plus is_digit); WordB])
           (None, str "episode") ].

Definition QUALITY_PATTERNS
    : list (regex * (list (option text) -> option text)) :=
  let group1 := fun g : list (option text) => mjoin (g !! 0%nat) in
  let res_pi := seqs [Rep is_digit 3 (Some 4%nat); Chr (one_of_ci "pi")] in
  [ (seqs [WordB; Grp 1 res_pi; WordB], group1);
    (seqs [WordB; Grp 1 (Alt (lit_ci "4k") (lit_ci "2160p")); WordB],
     fun _ => Some (str "4k"));
    (seqs [WordB; Grp 1 (Alt (lit_ci "2k") (lit_ci "1440p")); WordB],
     fun _ => Some (str "2k"));
    (seqs [WordB; Grp 1 (Alt (lit_ci "HDRip") (lit_ci "HDTV")); WordB],
     group1);
    (seqs [WordB; Grp 1 (Alt (lit_ci "4kX264") (lit_ci "4kx265")); WordB],
     group1);
    (seqs [lit_ci "["; Grp 1 res_pi; lit_ci "]"], group1) ].

(** The f-string [f"{m.group(1)}bed"]. *)
Definition group1_bed (g : list (option text)) : option text :=
  Some (match mjoin (g !! 0%nat) with
        | Some w => w ++ str "bed"
        | None => str "Nonebed"
        end).

Definition AUDIO_PATTERNS
    : list (regex * (list (option text) -> option text)) :=
  let group1 := fun g : list (option text) => mjoin (g !! 0%nat) in
  let sep := Opt (Chr (fun c => Ascii.eqb c "-" || is_space c)%bool) in
  [ (seqs [WordB; Grp 1 (Alt (lit_ci "Multi") (lit_ci "Dual")); sep;
           lit_ci "Audio"; WordB],
     fun _ => Some (str "Multi"));
    (seqs [WordB; Grp 1 (lit_ci "Dual"); sep;
           Grp 2 (Alt (lit_ci "Audio") (lit_ci "Track")); WordB],
     fun _ => Some (str "Dual"));
    (seqs [WordB; Grp 1 (Seq (lit_ci "Sub") (Opt (Grp 2 (lit_ci "bed"))));
           WordB],
     fun _ => Some (str "Sub"));
    (seqs [WordB; Grp 1 (Seq (lit_ci "Dub") (Opt (Grp 2 (lit_ci "bed"))));
           WordB],
     fun _ => Some (str "Dub"));
    (seqs [lit "["; Grp 1 (Alt (lit "Sub") (lit "Dub")); lit "]"],
     group1_bed);
    (seqs [lit "("; Grp 1 (Alt (lit "Sub") (lit "Dub")); lit ")"],
     group1_bed);
    (seqs [WordB;
           Grp 1 (seqs [lit_ci "Eng"; Opt (Grp 2 (lit_ci "lish"));
                        star is_space; lit_ci "/"; star is_space;
                        Grp 3 (alts (lit_ci "Jap")
                                 [lit_ci "Kor"; lit_ci "Chi"])]);
           WordB],
     fun _ => Some (str "Dual"));
    (seqs [WordB;
           Grp 1 (alts (lit "TrueHD")
                    [seqs [lit "DTS"; Opt (Chr (one_of "- ")); lit "HD"];
                     lit "Atmos"]);
           WordB],
     group1);
    (seqs [lit "["; Grp 1 (lit "Unknown"); lit "]"], group1) ].

(** ** The classifiers *)

(** [pattern.search]: a compiled pattern has the method, a tuple has
    not. *)
Definition search_method (entry : table_entry)
    : res (text -> option (list (option text))) :=
  match entry with
  | Pattern r => Return (search r)
  | Tagged _ _ =>
      Raise (AttributeError (str "'tuple' object has no attribute 'search'"))
  end.

(** [groups[i] if len(groups) > i else None]. *)
Definition item_or_none (groups : list (option text)) (i : nat)
    : option text :=
  if Nat.ltb i (length groups) then mjoin (groups !! i) else None.

Fixpoint season_episode_loop (table : list table_entry) (t : text)
    : res (option text * option text) :=
  match table with
  | [] => Return (None, None)
  | pattern :: rest =>
      match search_method pattern with
      | Raise e => Raise e
      | Return search_fn =>
          match search_fn t with
          | Some groups =>
              let season := item_or_none groups 0 in
              let episode :=
                if Nat.ltb 1 (length groups) then mjoin (groups !! 1%nat)
                else item_or_none groups 0 in
              Return (season, episode)
          | None => season_episode_loop rest t
          end
      end
  end.

Definition extract_season_episode (t : text)
    : res (option text * option text) :=
  season_episode_loop SEASON_EPISODE_PATTERNS t.

Fixpoint first_extracted
    (table : list (regex * (list (option text) -> option text)))
    (t : text) : option (option text) :=
  match table with
  | [] => None
  | (pattern, extractor) :: rest =>
      match search pattern t with
      | Some groups => Some (extractor groups)
      | None => first_extracted rest t
      end
  end.

Definition extract_quality (t : text) : option text :=
  match first_extracted QUALITY_PATTERNS t with
  | Some quality => quality
  | None => Some (str "Unknown")
  end.

Definition extract_audio_info (t : text) : option text :=
  match first_extracted AUDIO_PATTERNS t with
  | Some audio_info => audio_info
  | None => None
  end.

(** ** Placeholder substitution: [re.sub(re.escape(p), value, template,
       flags=re.IGNORECASE)] *)

(** A parsed replacement template: literal characters and references to
    the whole match. *)
Inductive piece : Type :=
| Literal (c : ascii)
| WholeMatch.

Definition push {A : Type} (x : A) (r : res (list A)) : res (list A) :=
  match r with
  | Return l => Return (x :: l)
  | Raise e => Raise e
  end.

Definition is_octal (c : ascii) : bool := between 48 55 c.
Definition digit_value (c : ascii) : N := (code c - 48)%N.

(** The escapes [\a \b \f \n \r \t \v \\] of a replacement template. *)
Definition escape_code (c : ascii) : option N :=
  if Ascii.eqb c "a" then Some 7%N else
  if Ascii.eqb c "b" then Some 8%N else
  if Ascii.eqb c "f" then Some 12%N else
  if Ascii.eqb c "n" then Some 10%N else
  if Ascii.eqb c "r" then Some 13%N else
  if Ascii.eqb c "t" then Some 9%N else
  if Ascii.eqb c "v" then Some 11%N else
  if Ascii.eqb c "\" then Some 92%N else None.

(** [re]'s parser of replacement templates, for a pattern without groups:
    a replacement without a backslash stands for itself; behind a
    backslash come an escape, an octal code, or a reference to group 0
    ([\g<0>]); every other group reference and every unknown letter
    escape is an error. [in_name] holds the characters of a group name
    being read. *)
Fixpoint parse_template (in_name : option text) (s : text)
    : res (list piece) :=
  match in_name, s with
  | Some _, [] => Raise ReError
  | Some name, c :: rest =>
      if Ascii.eqb c ">" then
        if (negb (Nat.eqb (length name) 0) && forallb (Ascii.eqb "0") name)%bool
        then push WholeMatch (parse_template None rest)
        else Raise ReError
      else parse_template (Some (name ++ [c])) rest
  | None, [] => Return []
  | None, c :: rest =>
      if negb (Ascii.eqb c "\") then push (Literal c) (parse_template None rest)
      else
        match rest with
        | [] => Raise ReError
        | e :: rest1 =>
            if Ascii.eqb e "g" then
              match rest1 with
              | lt :: rest2 =>
                  if Ascii.eqb lt "<" then parse_template (Some []) rest2
                  else Raise ReError
              | [] => Raise ReError
              end
            else if Ascii.eqb e "0" then
              match rest1 with
              | d1 :: rest2 =>
                  if is_octal d1 then
                    match rest2 with
                    | d2 :: rest3 =>
                        if is_octal d2 then
                          push (Literal (ascii_of_N
                                  (8 * digit_value d1 + digit_value d2)))
                               (parse_template None rest3)
                        else push (Literal (ascii_of_N (digit_value d1)))
                                  (parse_template None rest2)
                    | [] => push (Literal (ascii_of_N (digit_value d1)))
                                 (parse_template None rest2)
                    end
                  else push (Literal zero) (parse_template None rest1)
              | [] => push (Literal zero) (parse_template None rest1)
              end
            else if is_digit e then
              match rest1 with
              | d2 :: d3 :: rest3 =>
                  let v := (64 * digit_value e + 8 * digit_value d2
                            + digit_value d3)%N in
                  if (is_octal e && is_octal d2 && is_octal d3
                      && N.leb v 255)%bool
                  then push (Literal (ascii_of_N v))
                            (parse_template None rest3)
                  else Raise ReError
              | _ => Raise ReError
              end
            else
              match escape_code e with
              | Some n => push (Literal (ascii_of_N n))
                               (parse_template None rest1)
              | None =>
                  if (is_upper e || is_lower e)%bool then Raise ReError
                  else push (Literal c)
                         (push (Literal e) (parse_template None rest1))
              end
        end
  end.

(** The replacement text for a match whose text is [w]. *)
Definition expand (ps : list piece) (w : text) : text :=
  flat_map (fun p => match p with Literal c => [c] | WholeMatch => w end) ps.

(** The text at the head of [s] that equals [needle] up to letter case,
    if there is one. *)
Fixpoint prefix_ci (needle s : text) : option text :=
  match needle, s with
  | [], _ => Some []
  | _ :: _, [] => None
  | a :: needle', b :: s' =>
      if ci_eqb a b then
        match prefix_ci needle' s' with
        | Some w => Some (b :: w)
        | None => None
        end
      else None
  end.

(** Every occurrence of [needle], found left to right without overlap,
    replaced; [skip] counts the characters of a replaced occurrence still
    to be passed over. *)
Fixpoint replace_from (needle : text) (repl : text -> text) (skip : nat)
    (s : text) : text :=
  match s with
  | [] => []
  | c :: s' =>
      match skip with
      | S n => replace_from needle repl n s'
      | O =>
          match prefix_ci needle s with
          | Some w => repl w ++ replace_from needle repl (length w - 1) s'
          | None => c :: replace_from needle repl 0 s'
          end
      end
  end.

Definition replace_all (needle : text) (repl : text -> text) (s : text)
    : text :=
  match needle with
  | [] => repl [] ++ flat_map (fun c => c :: repl []) s
  | _ :: _ => replace_from needle repl 0 s
  end.

(** [re.sub(re.escape(placeholder), value, template, flags=re.IGNORECASE)];
    a [value] of [None] is a [TypeError]. *)
Definition re_sub_escaped_ignorecase (placeholder : text)
    (value : option text) (template : text) : res text :=
  match value with
  | None => Raise TypeError
  | Some v =>
      match parse_template None v with
      | Raise e => Raise e
      | Return ps => Return (replace_all placeholder (expand ps) template)
      end
  end.

(** Python's [x or d] on an optional string. *)
Definition or_else (x : option text) (d : text) : text :=
  match x with
  | Some (c :: w) => c :: w
  | _ => d
  end.

(** The dictionary [replacements], in insertion order. *)
Definition replacements (season episode quality audio_info : option text)
    : list (text * option text) :=
  [ (str "{season}", Some (or_else season (str "XX")));
    (str "{episode}", Some (or_else episode (str "XX")));
    (str "{quality}", quality);
    (str "{audio}", Some (or_else audio_info (str "Unknown")));
    (str "Season", Some (or_else season (str "XX")));
    (str "Episode", Some (or_else episode (str "XX")));
    (str "QUALITY", quality);
    (str "AUDIO", Some (or_else audio_info (str "Unknown"))) ].

(** The loop over [replacements.items()]. *)
Fixpoint replace_placeholders (items : list (text * option text))
    (format_template : text) : res text :=
  match items with
  | [] => Return format_template
  | (placeholder, value) :: rest =>
      match re_sub_escaped_ignorecase placeholder value format_template with
      | Raise e => Raise e
      | Return t => replace_placeholders rest t
      end
  end.

(** ** File extension: [os.path.splitext(file_name)[1]] (POSIX) *)

Fixpoint rfind_from (c : ascii) (p : text) (i : nat) (last : option nat)
    : option nat :=
  match p with
  | [] => last
  | x :: p' =>
      rfind_from c p' (S i) (if Ascii.eqb x c then Some i else last)
  end.

Definition rfind (c : ascii) (p : text) : option nat := rfind_from c p 0 None.

Definition splitext_ext (p : text) : text :=
  let filename_index :=
    match rfind "/" p with Some i => S i | None => O end in
  match rfind "." p with
  | Some dot_index =>
      if existsb (fun x => negb (Ascii.eqb x "."))
           (drop filename_index (take dot_index p))
      then drop dot_index p
      else []
  | None => []
  end.

(** ** The world of the handlers

    A handler runs against the state it shares with the rest of the
    process (the dictionary [renaming_operations], the user collection of
    the database, the local file system) and leaves a trace of the
    actions it takes. The answers of the services outside the plugin
    (chat client, content checker, clock, subprocess, image library) are
    given by an [outside] record, one field per call site. *)

Inductive node : Type := File | Dir.

Inductive media_kind : Type := Document | Video | Audio.

(** The stages of the pipeline, as the handler reaches them. *)
Inductive stage : Type :=
| PreferencesLoaded | ContentChecked | DuplicateChecked | SourceTextSelected
| Extracted | Rendered | Downloaded | MetadataTagged | ThumbnailPrepared
| Uploaded | Errored | CleanedUp.

(** A message shown to the user: a fixed text, or [f"{prefix}{e}"]. *)
Inductive status_text : Type :=
| Plain (t : text)
| WithError (prefix : text) (e : exn).

Inductive event : Type :=
| Enter (s : stage)
| ReplyText (t : status_text)
| MsgEdit (t : status_text)
| MsgDelete
| CheckAntiNsfw (file_name : option text)
| DownloadMedia (file_name : text)
| DownloadThumb (file_id : text)
| Sleep (seconds : Z)
| SubprocessExec (cmd : list text)
| WaitFor (timeout : Z)
| Kill
| Send (kind : media_kind) (path : option text) (caption : text)
       (thumb : option text)
| Answer (t : text)
| EditTextSourceSet (source : text).

(** The local variables of [auto_rename_files] that its handlers and its
    [finally] clause read. *)
Record locals : Type := Locals {
  download_path : option text;
  metadata_path : option text;
  thumb_path : option text;
  msg : bool
}.

(** A user document: field name to value, [None] being [null]. *)
Abbreviation doc := (gmap text (option text)).

Record world : Type := World {
  renaming_operations : gmap text Z;
  users : gmap Z doc;
  db_up : bool;
  fs : gmap text node;
  frame : locals;
  trace : list event
}.

Definition set_renaming_operations (f : gmap text Z -> gmap text Z)
    (w : world) : world :=
  World (f (renaming_operations w)) (users w) (db_up w) (fs w) (frame w)
        (trace w).
Definition set_users (f : gmap Z doc -> gmap Z doc) (w : world) : world :=
  World (renaming_operations w) (f (users w)) (db_up w) (fs w) (frame w)
        (trace w).
Definition set_fs (f : gmap text node -> gmap text node) (w : world)
    : world :=
  World (renaming_operations w) (users w) (db_up w) (f (fs w)) (frame w)
        (trace w).
Definition set_frame (f : locals -> locals) (w : world) : world :=
  World (renaming_operations w) (users w) (db_up w) (fs w) (f (frame w))
        (trace w).
Definition set_trace (f : list event -> list event) (w : world) : world :=
  World (renaming_operations w) (users w) (db_up w) (fs w) (frame w)
        (f (trace w)).

(** Computations that read and change the world and may raise; the world
    keeps the changes made before an exception. *)
Definition M (A : Type) : Type := world -> res A * world.

Global Instance M_ret : MRet M := fun A a w => (Return a, w).
Global Instance M_bind : MBind M := fun A B k c w =>
  match c w with
  | (Return a, w') => k a w'
  | (Raise e, w') => (Raise e, w')
  end.

Definition raise {A : Type} (e : exn) : M A := fun w => (Raise e, w).
Definition lift {A : Type} (r : res A) : M A := fun w => (r, w).
Definition gets {A : Type} (f : world -> A) : M A := fun w => (Return (f w), w).
Definition modify (f : world -> world) : M unit := fun w => (Return tt, f w).

(** The trace holds the latest action first. *)
Definition emit (e : event) : M unit := modify (set_trace (cons e)).

(** [try: body except Exception as e: handler(e)]: what is raised and is
    no [Exception] passes the clause. *)
Definition try_except {A : Type} (body : M A) (handler : exn -> M A) : M A :=
  fun w =>
    match body w with
    | (Return a, w') => (Return a, w')
    | (Raise e, w') =>
        if is_exception e then handler e w' else (Raise e, w')
    end.

(** [try: body finally: final]. *)
Definition try_finally {A : Type} (body : M A) (final : M unit) : M A :=
  fun w =>
    match body w with
    | (r, w') =>
        match final w' with
        | (Return _, w'') => (r, w'')
        | (Raise e, w'') => (Raise e, w'')
        end
    end.

(** The actions of a computation started with an empty trace, in the order
    they were taken. *)
Definition actions {A : Type} (c : M A) (w : world) : list event :=
  rev (trace (snd (c (set_trace (fun _ => []) w)))).

Definition stages_of (evs : list event) : list stage :=
  flat_map (fun e => match e with Enter s => [s] | _ => [] end) evs.

(** ** [helper/database.py] *)

(** [self.users.find_one({"_id": int(id)})]. *)
Definition find_one (id : Z) : M (option doc) := fun w =>
  if db_up w then (Return (users w !! id), w)
  else (Raise (OtherError (str "database unavailable")), w).

(** [self.users.update_one({"_id": int(id)}, {"$set": {key: value}})]. *)
Definition update_one_set (id : Z) (key : text) (value : option text)
    : M unit := fun w =>
  if db_up w
  then (Return tt, set_users (alter (insert key value) id) w)
  else (Raise (OtherError (str "database unavailable")), w).

(** The shape shared by the getters: [user.get(key, missing)] inside a
    [try] whose handler returns [failed]. *)
Definition db_get (id : Z) (key : text) (missing failed : option text)
    : M (option text) :=
  try_except
    (user ← find_one id;
     match user with
     | Some d => mret (default missing (d !! key))
     | None =>
         raise (AttributeError
                  (str "'NoneType' object has no attribute 'get'"))
     end)
    (fun _ => mret failed).

(** The shape shared by the setters. *)
Definition db_set (id : Z) (key : text) (value : option text) : M unit :=
  try_except (update_one_set id key value) (fun _ => mret tt).

Definition get_thumbnail (id : Z) := db_get id (str "file_id") None None.
Definition get_caption (id : Z) := db_get id (str "caption") None None.
Definition get_format_template (id : Z) :=
  db_get id (str "format_template") None None.
Definition set_file_source (id : Z) (source_type : text) :=
  db_set id (str "file_source") (Some source_type).
Definition get_file_source (id : Z) :=
  db_get id (str "file_source") (Some (str "filename"))
    (Some (str "filename")).
Definition get_title (id : Z) :=
  db_get id (str "title") (Some (str "Encoded by @Animes_Cruise"))
    (Some (str "Encoded by @Animes_Cruise")).
Definition get_author (id : Z) :=
  db_get id (str "author") (Some (str "@Animes_Cruise"))
    (Some (str "@Animes_Cruise")).
Definition get_artist (id : Z) :=
  db_get id (str "artist") (Some (str "@Animes_Cruise"))
    (Some (str "@Animes_Cruise")).
Definition get_audio (id : Z) :=
  db_get id (str "audio") (Some (str "By @Animes_Cruise"))
    (Some (str "By @Animes_Cruise")).
Definition get_subtitle (id : Z) :=
  db_get id (str "subtitle") (Some (str "By @Animes_Cruise"))
    (Some (str "By @Animes_Cruise")).
Definition get_video (id : Z) :=
  db_get id (str "video") (Some (str "Encoded By @Animes_Cruise"))
    (Some (str "Encoded By @Animes_Cruise")).

(** The setters of class [Database], each with the field it sets. *)
Definition Database_setters : list (text * text) :=
  map (fun p : string * string => (str (fst p), str (snd p)))
    [ ("set_thumbnail", "file_id"); ("set_caption", "caption");
      ("set_format_template", "format_template");
      ("set_file_source", "file_source"); ("set_metadata", "metadata");
      ("set_title", "title"); ("set_author", "author");
      ("set_artist", "artist"); ("set_audio", "audio");
      ("set_subtitle", "subtitle"); ("set_video", "video") ].

(** The other attributes of a [Database] object: the three set by
    [__init__] and the remaining methods of the class. *)
Definition Database_other_attributes : list text :=
  map str
    [ "_client"; "db"; "users"; "__init__"; "new_user"; "add_user";
      "is_user_exist"; "total_users_count"; "get_all_users"; "delete_user";
      "get_thumbnail"; "get_caption"; "get_format_template";
      "get_file_source"; "get_metadata"; "get_title"; "get_author";
      "get_artist"; "get_audio"; "get_subtitle"; "get_video" ].

Fixpoint assoc (name : text) (l : list (text * text)) : option text :=
  match l with
  | [] => None
  | (k, v) :: l' => if decide (k = name) then Some v else assoc name l'
  end.

(** [codeflixbots.<name>(user_id, value)]: attribute lookup on the
    [Database] object, then the call. A setter sets its field; a name the
    class does not define is an [AttributeError]; the remaining attributes
    do not take these two arguments and the call is taken to raise. *)
Definition codeflixbots_call (name : text) (user_id : Z) (value : text)
    : M unit :=
  match assoc name Database_setters with
  | Some key => db_set user_id key (Some value)
  | None =>
      if decide (name ∈ Database_other_attributes) then raise TypeError
      else raise (AttributeError
                    (str "'Database' object has no attribute '"
                     ++ name ++ str "'"))
  end.

(** ** [file_source_callback] *)

Definition upper (c : ascii) : ascii :=
  if is_lower c then ascii_of_N (code c - 32) else c.

(** [callback_query]: the handler's filter admits the data
    [source_filename] and [source_caption] only; [source_type] is the part
    after the underscore. *)
Record callback_query : Type := CallbackQuery {
  source_type : text;
  cq_from_user : Z
}.

Definition file_source_callback (cq : callback_query) : M unit :=
  let source_type := source_type cq in
  let user_id := cq_from_user cq in
  try_except
    (codeflixbots_call (str "update_file_source") user_id source_type;;
     emit (Answer (str "Patterns will now be extracted from " ++ source_type));;
     emit (EditTextSourceSet (map upper source_type)))
    (fun _ => emit (Answer (str "Failed to update source preference"))).

(** ** Outside services and the incoming message *)

(** How the wait of at most 300 seconds for the subprocess ends: the bound
    elapses, or the process exits with a return code and its stderr,
    given decoded ([None] when the bytes do not decode). *)
Inductive waited : Type :=
| Elapsed
| Exited (returncode : Z) (stderr : option text).

Record outside : Type := Outside {
  nsfw : res bool;                   (* check_anti_nsfw *)
  now : Z;                           (* datetime.now(), in microseconds *)
  download_1 : res bool;             (* download_media: file written and
                                        its path returned, or None *)
  download_2 : res bool;             (* the same, after a FloodWait *)
  ffmpeg : option text;              (* shutil.which('ffmpeg') *)
  spawn : res unit;                  (* create_subprocess_exec *)
  communicate : waited;              (* wait_for(process.communicate()) *)
  output_written : bool;             (* the subprocess wrote its output *)
  thumb_download : res (option text);  (* download_media of a thumbnail *)
  image_ok : bool;                   (* PIL opens, resizes and saves *)
  send_1 : res unit;                 (* send_document/video/audio *)
  send_2 : res unit;                 (* the same, after a FloodWait *)
  remove_fails : text -> bool        (* os.remove / rmtree raises *)
}.

Record media : Type := Media {
  file_id : text;
  file_name : option text;
  file_size : Z;
  thumbs : list text
}.

Record message : Type := Message {
  from_user : Z;
  chat : Z;
  document : option media;
  video : option media;
  audio : option media;
  caption : option text
}.

(** ** [cleanup_files] *)

(** [p] lies below the directory [path]. *)
Definition under (path p : text) : bool :=
  bool_decide (take (length path + 1) p = path ++ str "/").

(** One round of the loop: a path that is set and exists is removed, a
    file by [os.remove], a directory with all below it by
    [shutil.rmtree]; a failure is logged and the loop goes on. *)
Definition cleanup_path (o : outside) (path : option text) : M unit :=
  match path with
  | None | Some [] => mret tt
  | Some p =>
      kind ← gets (fun w => fs w !! p);
      match kind with
      | None => mret tt
      | Some k =>
          if remove_fails o p then mret tt
          else
            match k with
            | File => modify (set_fs (delete p))
            | Dir =>
                modify (set_fs (fun f =>
                  filter (fun e => negb (under p (fst e))) (delete p f)))
            end
      end
  end.

Fixpoint cleanup_files (o : outside) (paths : list (option text)) : M unit :=
  match paths with
  | [] => mret tt
  | path :: rest => cleanup_path o path;; cleanup_files o rest
  end.

(** ** [process_thumbnail] *)

Definition process_thumbnail (o : outside) (thumb_path : option text)
    : M (option text) :=
  match thumb_path with
  | None | Some [] => mret None
  | Some p =>
      kind ← gets (fun w => fs w !! p);
      match kind with
      | None => mret None
      | Some _ =>
          if image_ok o then
            let processed_path := p ++ str "_processed.jpg" in
            modify (set_fs (insert processed_path File));;
            mret (Some processed_path)
          else cleanup_files o [Some p];; mret None
      end
  end.

(** ** [add_metadata] *)

Definition add_metadata (o : outside) (input_path : option text)
    (output_path : text) (user_id : Z) : M unit :=
  match ffmpeg o with
  | None | Some [] => raise (RuntimeError (str "FFmpeg not found in PATH"))
  | Some ffmpeg =>
      title ← get_title user_id;
      artist ← get_artist user_id;
      author ← get_author user_id;
      video_title ← get_video user_id;
      audio_title ← get_audio user_id;
      subtitle ← get_subtitle user_id;
      let field := fun (name : string) (v : option text) =>
                     str name ++ or_else v [] in
      try_except
        (process ←
           match input_path with
           | None => raise TypeError
           | Some input =>
               emit (SubprocessExec
                 [ ffmpeg; str "-i"; input;
                   str "-metadata"; field "title=" title;
                   str "-metadata"; field "artist=" artist;
                   str "-metadata"; field "author=" author;
                   str "-metadata:s:v"; field "title=" video_title;
                   str "-metadata:s:a"; field "title=" audio_title;
                   str "-metadata:s:s"; field "title=" subtitle;
                   str "-map"; str "0"; str "-c"; str "copy";
                   str "-loglevel"; str "error"; output_path ]);;
               lift (spawn o)
           end;
         emit (WaitFor 300);;
         (if output_written o
          then modify (set_fs (insert output_path File)) else mret tt);;
         match communicate o with
         | Elapsed => raise TimeoutError
         | Exited returncode stderr =>
             if decide (returncode ≠ 0) then
               match stderr with
               | Some err => raise (RuntimeError (str "FFmpeg error: " ++ err))
               | None => raise UnicodeDecodeError
               end
             else mret tt
         end)
        (fun e =>
           match e with
           | TimeoutError =>
               match input_path, spawn o with
               | Some _, Return _ =>
                   emit Kill;;
                   raise (RuntimeError (str "FFmpeg processing timed out"))
               | _, _ => raise UnboundLocalError
               end
           | _ => raise e
           end)
  end.

(** ** The duplicate guard of [auto_rename_files] *)

(** [timedelta.seconds] of a difference of [d] microseconds: the seconds
    within the day, the days being held apart. *)
Definition timedelta_seconds (d : Z) : Z :=
  (d `mod` 86400000000) `div` 1000000.

(** The check on [renaming_operations]: [false] stands for the handler's
    [return], [true] for going on past the assignment. *)
Definition duplicate_guard (file_id : text) (current_time : Z)
    (ops : gmap text Z) : bool * gmap text Z :=
  match ops !! file_id with
  | Some recorded =>
      if decide (timedelta_seconds (current_time - recorded) < 10)
      then (false, ops)
      else (true, <[file_id := current_time]> ops)
  | None => (true, <[file_id := current_time]> ops)
  end.

(** The last lines of the [finally] clause. *)
Definition release (file_id : text) (ops : gmap text Z) : gmap text Z :=
  match ops !! file_id with
  | Some _ => delete file_id ops
  | None => ops
  end.

(** ** [auto_rename_files] *)

(** [os.path.join(directory, name)] for a relative [directory]. *)
Definition path_join (directory : string) (name : text) : text :=
  match name with
  | "/"%char :: _ => name
  | _ => str directory ++ str "/" ++ name
  end.

Fixpoint rstrip_slash (s : text) : text :=
  match s with
  | [] => []
  | c :: s' =>
      match rstrip_slash s' with
      | [] => if Ascii.eqb c "/" then [] else [c]
      | r => c :: r
      end
  end.

(** [os.path.split]: the head, without the slashes at its end unless it
    consists of slashes, and the last component. *)
Definition split (p : text) : text * text :=
  match rfind "/" p with
  | None => ([], p)
  | Some i =>
      let head := take (S i) p in
      (if forallb (Ascii.eqb "/") head then head else rstrip_slash head,
       drop (S i) p)
  end.

(** [os.path.dirname]. *)
Definition dirname (p : text) : text := fst (split p).

(** What the file system holds at a path, the root directory being
    there always. Paths are taken literally: [.], [..] and doubled
    slashes are not resolved. *)
Definition stat (w : world) (p : text) : option node :=
  match p with
  | [] => None
  | _ :: _ => if forallb (Ascii.eqb "/") p then Some Dir else fs w !! p
  end.

(** [os.makedirs(name, exist_ok=True)]: the missing directories above
    [name] are made first, by the same function ([fuel] bounds the depth
    and is the length of [name] at the start, each head being shorter);
    then [name] itself is made, a directory that exists being let
    pass. *)
Fixpoint makedirs_from (fuel : nat) (name : text) : M unit :=
  let '(head, tail) :=
    match split name with
    | (head, []) => split head
    | head_tail => head_tail
    end in
  above ← gets (fun w => stat w head);
  finished ←
    match head, tail, above with
    | _ :: _, _ :: _, None =>
        match fuel with
        | S fuel' =>
            try_except (makedirs_from fuel' head)
              (fun e =>
                 match e with
                 | OtherError msg =>
                     if decide (msg = str "FileExistsError") then mret tt
                     else raise e
                 | _ => raise e
                 end)
        | O => mret tt
        end;;
        mret (bool_decide (tail = str "."))
    | _, _, _ => mret false
    end;
  if (finished : bool) then mret tt
  else
    there ← gets (fun w => stat w name);
    match there with
    | Some Dir => mret tt
    | Some File => raise (OtherError (str "FileExistsError"))
    | None =>
        parent ← gets (fun w =>
                         match head with
                         | [] => Some Dir
                         | _ :: _ => stat w head
                         end);
        match name, parent with
        | [], _ => raise (OtherError (str "FileNotFoundError"))
        | _, Some Dir => modify (set_fs (insert name Dir))
        | _, Some File => raise (OtherError (str "NotADirectoryError"))
        | _, None => raise (OtherError (str "FileNotFoundError"))
        end
    end.

Definition makedirs (name : text) : M unit :=
  makedirs_from (length name) name.

Definition reply_text (t : status_text) : M unit := emit (ReplyText t).
Definition msg_edit (t : status_text) : M unit := emit (MsgEdit t).

(** [client.download_media(message, file_name=path, ...)]. *)
Definition download_media (answer : res bool) (path : text)
    : M (option text) :=
  emit (DownloadMedia path);;
  written ← lift answer;
  if (written : bool)
  then modify (set_fs (insert path File));; mret (Some path)
  else mret None.

(** [client.download_media(thumb)]: the client chooses the path. *)
Definition download_thumb (o : outside) (id : text) : M (option text) :=
  emit (DownloadThumb id);;
  path ← lift (thumb_download o);
  match path with
  | Some p => modify (set_fs (insert p File));; mret (Some p)
  | None => mret None
  end.

(** The [if]/[elif] chain over the media of the message: file id, file
    name and media type. *)
Definition file_information (message : message)
    : option (text * option text * media_kind * list text) :=
  match document message, video message, audio message with
  | Some d, _, _ => Some (file_id d, file_name d, Document, [])
  | None, Some v, _ =>
      Some (file_id v, Some (or_else (file_name v) (str "video")), Video,
            thumbs v)
  | None, None, Some a =>
      Some (file_id a, Some (or_else (file_name a) (str "audio")), Audio, [])
  | None, None, None => None
  end.

(** The text the classifiers read. *)
Definition text_to_parse (source_type : text) (caption : option text)
    (file_name : option text) : option text :=
  if decide (source_type = str "caption") then
    match caption with
    | Some (c :: t) => Some (c :: t)
    | _ => file_name
    end
  else file_name.

(** A classifier applied to the chosen text; on [None] the first
    [pattern.search] raises. *)
Definition on_text {A : Type} (f : text -> res A) (t : option text) : res A :=
  match t with
  | Some t => f t
  | None => Raise TypeError
  end.

(** [os.path.splitext(file_name)[1] or ('.mp4' if media_type == 'video'
    else '.mp3')]. *)
Definition extension (file_name : option text) (media_type : media_kind)
    : res text :=
  match file_name with
  | None => Raise TypeError
  | Some f =>
      Return (match splitext_ext f with
              | [] => match media_type with
                      | Video => str ".mp4"
                      | _ => str ".mp3"
                      end
              | ext => ext
              end)
  end.

(** From the chosen text to [new_filename]: the three classifiers, the
    substitution loop and the extension. *)
Definition new_filename (format_template source_type : text)
    (caption file_name : option text) (media_type : media_kind) : res text :=
  let t := text_to_parse source_type caption file_name in
  match on_text extract_season_episode t with
  | Raise e => Raise e
  | Return (season, episode) =>
      match on_text (fun t => Return (extract_quality t)) t with
      | Raise e => Raise e
      | Return quality =>
          match on_text (fun t => Return (extract_audio_info t)) t with
          | Raise e => Raise e
          | Return audio_info =>
              match replace_placeholders
                      (replacements season episode quality audio_info)
                      format_template with
              | Raise e => Raise e
              | Return rendered =>
                  match extension file_name media_type with
                  | Raise e => Raise e
                  | Return ext => Return (rendered ++ ext)
                  end
              end
          end
      end
  end.

Definition set_paths (d m : text) : M unit :=
  modify (set_frame (fun f => Locals (Some d) (Some m) (thumb_path f) (msg f))).
Definition set_thumb_path (t : option text) : M unit :=
  modify (set_frame (fun f =>
    Locals (download_path f) (metadata_path f) t (msg f))).
Definition set_msg : M unit :=
  modify (set_frame (fun f =>
    Locals (download_path f) (metadata_path f) (thumb_path f) true)).

(** [client.send_document], [send_video] or [send_audio], by media
    type. *)
Definition send (answer : res unit) (media_type : media_kind)
    (file_path : option text) (caption : text) : M unit :=
  thumb ← gets (fun w => thumb_path (frame w));
  emit (Send media_type file_path caption thumb);;
  lift answer.

(** The body of the outer [try] of [auto_rename_files]. *)
Definition rename_and_upload (o : outside) (message : message)
    (format_template source_type : text) (file_name : option text)
    (media_type : media_kind) (video_thumbs : list text) : M unit :=
  let user_id := from_user message in
  emit (Enter SourceTextSelected);;
  let t := text_to_parse source_type (caption message) file_name in
  emit (Enter Extracted);;
  '(season, episode) ← lift (on_text extract_season_episode t);
  quality ← lift (on_text (fun t => Return (extract_quality t)) t);
  audio_info ← lift (on_text (fun t => Return (extract_audio_info t)) t);
  emit (Enter Rendered);;
  rendered ← lift (replace_placeholders
                     (replacements season episode quality audio_info)
                     format_template);
  ext ← lift (extension file_name media_type);
  let new_filename := rendered ++ ext in
  let download_path := path_join "downloads" new_filename in
  let metadata_path := path_join "metadata" new_filename in
  set_paths download_path metadata_path;;
  makedirs (dirname download_path);;
  makedirs (dirname metadata_path);;
  emit (Enter Downloaded);;
  reply_text (Plain (str "**Downloading...**"));;
  set_msg;;
  file_path ←
    try_except (download_media (download_1 o) download_path)
      (fun e =>
         match e with
         | FloodWait value =>
             emit (Sleep value);;
             download_media (download_2 o) download_path
         | _ => msg_edit (WithError (str "Download failed: ") e);; raise e
         end);
  emit (Enter MetadataTagged);;
  msg_edit (Plain (str "**Processing metadata...**"));;
  try_except (add_metadata o file_path metadata_path user_id)
    (fun e =>
       msg_edit (WithError (str "Metadata processing failed: ") e);;
       raise e);;
  let file_path := Some metadata_path in
  emit (Enter ThumbnailPrepared);;
  msg_edit (Plain (str "**Preparing upload...**"));;
  try_except
    (stored ← get_caption (chat message);
     let caption := or_else stored (str "**" ++ new_filename ++ str "**") in
     thumb ← get_thumbnail (chat message);
     set_thumb_path None;;
     match thumb, media_type, video_thumbs with
     | Some (c :: id), _, _ =>
         raw ← download_thumb o (c :: id); set_thumb_path raw
     | _, Video, first :: _ =>
         raw ← download_thumb o first; set_thumb_path raw
     | _, _, _ => mret tt
     end;;
     raw ← gets (fun w => thumb_path (frame w));
     processed ← process_thumbnail o raw;
     set_thumb_path processed;;
     emit (Enter Uploaded);;
     msg_edit (Plain (str "**Uploading...**"));;
     try_except (send (send_1 o) media_type file_path caption)
       (fun e =>
          match e with
          | FloodWait value =>
              emit (Sleep value);;
              send (send_2 o) media_type file_path caption
          | _ => raise e
          end);;
     emit MsgDelete)
    (fun e => msg_edit (WithError (str "Upload failed: ") e);; raise e).

(** The handler of the outer [except] clause. *)
Definition report_error (e : exn) : M unit :=
  emit (Enter Errored);;
  has_msg ← gets (fun w => msg (frame w));
  if (has_msg : bool) then msg_edit (WithError (str "Error: ") e)
  else reply_text (WithError (str "Error: ") e).

(** The [finally] clause. *)
Definition clean_up (o : outside) (file_id : text) : M unit :=
  emit (Enter CleanedUp);;
  f ← gets frame;
  cleanup_files o [download_path f; metadata_path f; thumb_path f];;
  modify (set_renaming_operations (release file_id)).

Definition auto_rename_files (o : outside) (message : message) : M unit :=
  let user_id := from_user message in
  emit (Enter PreferencesLoaded);;
  preferences ←
    try_except
      (format_template ← get_format_template user_id;
       stored ← get_file_source user_id;
       mret (Some (format_template, or_else stored (str "filename"))))
      (fun _ =>
         reply_text
           (Plain (str "Error accessing database. Please try again later."));;
         mret None);
  match preferences with
  | None => mret tt
  | Some (None, _) | Some (Some [], _) =>
      reply_text (Plain (str "Please set a rename format using /autorename"))
  | Some (Some format_template, source_type) =>
      match file_information message with
      | None => reply_text (Plain (str "Unsupported file type"))
      | Some (file_id, file_name, media_type, video_thumbs) =>
          emit (Enter ContentChecked);;
          clean ←
            try_except
              (emit (CheckAntiNsfw file_name);;
               unsafe ← lift (nsfw o);
               if (unsafe : bool)
               then reply_text (Plain (str "NSFW content detected"));;
                    mret false
               else mret true)
              (fun _ =>
                 reply_text (Plain (str "Error during content check"));;
                 mret false);
          if negb clean then mret tt
          else
            emit (Enter DuplicateChecked);;
            let current_time := now o in
            ops ← gets renaming_operations;
            let '(proceed, ops') :=
              duplicate_guard file_id current_time ops in
            if negb proceed then mret tt
            else
              modify (set_renaming_operations (fun _ => ops'));;
              modify (set_frame (fun _ => Locals None None None false));;
              try_finally
                (try_except
                   (rename_and_upload o message format_template source_type
                      file_name media_type video_thumbs)
                   report_error)
                (clean_up o file_id)
      end
  end.

(** ** Notions the statements use *)

(** The pattern of a table entry, whichever its form. *)
Definition entry_regex (e : table_entry) : regex :=
  match e with
  | Pattern r => r
  | Tagged r _ => r
  end.

(** The number (from [n]) of the first entry of [table] whose pattern
    matches [t], with the groups of that match. *)
Fixpoint first_matching (table : list table_entry) (t : text) (n : nat)
    : option (nat * list (option text)) :=
  match table with
  | [] => None
  | e :: rest =>
      match search (entry_regex e) t with
      | Some groups => Some (n, groups)
      | None => first_matching rest t (S n)
      end
  end.

(** The rule of the season/episode table that matches [t] first, rules
    being numbered from 1. *)
Definition first_matching_rule (t : text) : option (nat * list (option text)) :=
  first_matching SEASON_EPISODE_PATTERNS t 1.

(** The pattern of the entry at index [n] of the table. *)
Definition rule (n : nat) : regex :=
  match SEASON_EPISODE_PATTERNS !! n with
  | Some e => entry_regex e
  | None => Eps
  end.

(** *** Readings of the table literal

    In the source, each of the first five lines of the literal of
    [SEASON_EPISODE_PATTERNS] opens a parenthesis that it does not
    close. A table is a reading of the literal when it begins with the
    first pattern compiled, as [SEASON_EPISODE_PATTERNS] does, or with
    a tuple, as it does when the parenthesis is taken to open one. *)
Definition reading (table : list table_entry) : Prop :=
  match table with
  | Pattern r :: _ => Some (Pattern r) = head SEASON_EPISODE_PATTERNS
  | Tagged _ _ :: _ => True
  | [] => False
  end.

(** No value, or a string of decimal digits. *)
Definition digits_or_none (v : option text) : bool :=
  match v with
  | Some w => forallb is_digit w
  | None => true
  end.

(** [t] has a capital S directly followed by a digit. *)
Fixpoint has_S_digit (t : text) : bool :=
  match t with
  | x :: (y :: _) as t' =>
      (Ascii.eqb "S" x && is_digit y)%bool || has_S_digit t'
  | _ => false
  end.

Definition starts_with_digit (t : text) : bool :=
  match t with
  | x :: _ => is_digit x
  | [] => false
  end.

(** [w] is [s] up to letter case. *)
Fixpoint same_ci (s w : text) : bool :=
  match s, w with
  | [], [] => true
  | a :: s', b :: w' => (ci_eqb a b && same_ci s' w')%bool
  | _, _ => false
  end.

(** *** Rendering in one pass

    The replacement as the specification words it: the template is read
    once from left to right; where a placeholder spelling stands, in any
    letter case, its value is put, and every other character is kept. *)

Fixpoint spelling_at (items : list (text * text)) (s : text)
    : option (text * text) :=
  match items with
  | [] => None
  | (placeholder, value) :: rest =>
      match prefix_ci placeholder s with
      | Some w => Some (w, value)
      | None => spelling_at rest s
      end
  end.

Fixpoint render_from (items : list (text * text)) (skip : nat) (s : text)
    : text :=
  match s with
  | [] => []
  | c :: s' =>
      match skip with
      | S n => render_from items n s'
      | O =>
          match spelling_at items s with
          | Some (w, value) => value ++ render_from items (length w - 1) s'
          | None => c :: render_from items 0 s'
          end
      end
  end.

Definition render_one_pass (items : list (text * text)) (template : text)
    : text :=
  render_from items 0 template.

(** The eight spellings with the values the handler resolves for them. *)
Definition resolved (season episode : option text) (quality : text)
    (audio_info : option text) : list (text * text) :=
  [ (str "{season}", or_else season (str "XX"));
    (str "{episode}", or_else episode (str "XX"));
    (str "{quality}", quality);
    (str "{audio}", or_else audio_info (str "Unknown"));
    (str "Season", or_else season (str "XX"));
    (str "Episode", or_else episode (str "XX"));
    (str "QUALITY", quality);
    (str "AUDIO", or_else audio_info (str "Unknown")) ].

(** *** Inert values

    [a] and [b] agree, up to letter case, as far as both reach. *)
Fixpoint compat (a b : text) : bool :=
  match a, b with
  | x :: a', y :: b' => (ci_eqb x y && compat a' b')%bool
  | _, _ => true
  end.

(** The non-empty suffixes of a text. *)
Fixpoint tails (s : text) : list text :=
  match s with
  | [] => []
  | _ :: s' => s :: tails s'
  end.

(** No occurrence of [needle] can share a character with an occurrence of
    [v]: [needle] can neither begin inside [v] nor reach into it. *)
Definition apart (needle v : text) : bool :=
  (forallb (fun n' => negb (compat n' v)) (tails needle)
   && forallb (fun v' => negb (compat needle v')) (tails v))%bool.

(** A value is inert for the placeholders [needles] when it stands for
    itself as a replacement (it has no backslash), is not empty, and can
    share no character with an occurrence of a placeholder. *)
Definition inert (needles : list text) (v : text) : bool :=
  (forallb (fun c => negb (Ascii.eqb c "\")) v
   && negb (Nat.eqb (length v) 0)
   && forallb (fun n => apart n v) needles)%bool.

Definition placeholders : list text :=
  map fst (resolved None None [] None).

(** *** Templates cut into tokens, for the proofs about rendering *)

Inductive token : Type :=
| Lit (c : ascii)
| Hole (i : nat) (w : text).

(** The first item of [items] (numbered from [i]) whose placeholder
    stands at the head of [s], with the text found. *)
Fixpoint hole_at (items : list (text * text)) (i : nat) (s : text)
    : option (nat * text) :=
  match items with
  | [] => None
  | (placeholder, _) :: rest =>
      match prefix_ci placeholder s with
      | Some w => Some (i, w)
      | None => hole_at rest (S i) s
      end
  end.

(** The placeholders are tried in an order in which none can begin
    where a later one stands. *)
Fixpoint ordered (needles : list text) : bool :=
  match needles with
  | [] => true
  | n :: rest =>
      (forallb (fun later =>
         forallb (fun t => negb (compat n t)) (tails later)) rest
       && ordered rest)%bool
  end.

(** [ts] cuts the template [s] into the placeholder occurrences a pass
    from left to right finds, each with the index of its item, and the
    characters between them. *)
Inductive tokenized (items : list (text * text))
    : text -> list token -> Prop :=
| tokenized_nil : tokenized items [] []
| tokenized_lit (c : ascii) (s : text) (ts : list token) :
    (forall n v, (n, v) ∈ items -> prefix_ci n (c :: s) = None) ->
    tokenized items s ts ->
    tokenized items (c :: s) (Lit c :: ts)
| tokenized_hole (i : nat) (n v w s : text) (ts : list token) :
    items !! i = Some (n, v) ->
    w <> [] ->
    same_ci n w = true ->
    spelling_at items (w ++ s) = Some (w, v) ->
    tokenized items s ts ->
    tokenized items (w ++ s) (Hole i w :: ts).

(** The text of a token list once the holes numbered below [k] hold
    their values. *)
Definition fill (items : list (text * text)) (k : nat) (ts : list token)
    : text :=
  flat_map (fun t =>
    match t with
    | Lit c => [c]
    | Hole i w =>
        if Nat.ltb i k
        then match items !! i with Some (_, v) => v | None => w end
        else w
    end) ts.

(** The passes of the substitution loop, for values that stand for
    themselves. *)
Definition passes (items : list (text * text)) (s : text) : text :=
  fold_left (fun acc item => replace_all (fst item) (fun _ => snd item) acc)
    items s.

(** *** The order of the steps *)

(** The step of the handler an action belongs to: the call of the
    content check (1), of the download (2), of the tagging subprocess
    (3), of the thumbnail download (4), of the upload with the deletion
    of the status message behind it (5), and the report of an error at
    the end of a run (6). The other messages to the user, the pauses and
    the marks of the stages belong to no step. *)
Definition is_error_report (t : status_text) : bool :=
  match t with
  | WithError prefix _ => bool_decide (prefix = str "Error: ")
  | Plain _ => false
  end.

Definition step_of (e : event) : option nat :=
  match e with
  | CheckAntiNsfw _ => Some 1%nat
  | DownloadMedia _ => Some 2%nat
  | SubprocessExec _ | WaitFor _ | Kill => Some 3%nat
  | DownloadThumb _ => Some 4%nat
  | Send _ _ _ _ | MsgDelete => Some 5%nat
  | ReplyText t | MsgEdit t => if is_error_report t then Some 6%nat else None
  | _ => None
  end.

(** The step reached after the actions [evs], begun at step [k], if no
    action of [evs] belongs to a step before the one reached by
    then. *)
Fixpoint climb (k : nat) (evs : list event) : option nat :=
  match evs with
  | [] => Some k
  | e :: rest =>
      match step_of e with
      | None => climb k rest
      | Some p => if Nat.leb k p then climb p rest else None
      end
  end.

(** The actions [evs] go through the steps in the handler's order. *)
Definition in_handler_order (evs : list event) : bool :=
  match climb 0 evs with
  | Some _ => true
  | None => false
  end.

(** The actions a computation adds take place at steps [lo] to [hi], in
    this order. *)
Definition in_steps {A : Type} (lo hi : nat) (c : M A) : Prop :=
  forall w k, (k <= lo)%nat ->
    exists new k',
      trace (snd (c w)) = new ++ trace w
      /\ climb k (rev new) = Some k' /\ (k' <= hi)%nat.

(** A computation leaves the part [f] of the world as it is. *)
Definition keeps {A X : Type} (f : world -> X) (c : M A) : Prop :=
  forall w, f (snd (c w)) = f w.

(** A message to the user that reports no error of the run. *)
Definition is_reply (e : event) : bool :=
  match e with
  | ReplyText (Plain _) => true
  | _ => false
  end.

(** *** A sample run

    The video [Anime.S01E05.1080p.Dual.mkv] sent by user 7, who has the
    template [{season}{episode} {quality} {audio}] and a thumbnail stored;
    every outside service succeeds. *)
Definition sample_outside : outside :=
  Outside (Return false) 0 (Return true) (Return true)
    (Some (str "/usr/bin/ffmpeg")) (Return tt) (Exited 0 (Some [])) true
    (Return (Some (str "downloads/thumb.jpg"))) true (Return tt) (Return tt)
    (fun _ => false).

Definition sample_world : world :=
  World ∅
    {[ 7 := {[ str "format_template" :=
                 Some (str "{season}{episode} {quality} {audio}");
               str "file_id" := Some (str "THUMB") ]} ]}
    true ∅ (Locals None None None false) [].

Definition sample_message : message :=
  Message 7 7 None
    (Some (Media (str "FID") (Some (str "Anime.S01E05.1080p.Dual.mkv")) 100
             []))
    None None.

(** A suffix of a placeholder of [items], possibly empty. *)
Definition needle_suffix (items : list (text * text)) (t : text) : Prop :=
  t = [] \/ exists n v, (n, v) ∈ items /\ t ∈ tails n.

(** * Properties *)

(** ** Characters *)

Lemma is_space_lower (x : ascii) : is_space (lower x) = is_space x.
Proof. destruct x as [[] [] [] [] [] [] [] []]; reflexivity. Qed.

Lemma is_digit_lower (x : ascii) : is_digit (lower x) = is_digit x.
Proof. destruct x as [[] [] [] [] [] [] [] []]; reflexivity. Qed.

Lemma ci_eqb_lower (a c : ascii) : ci_eqb a c = true -> lower a = lower c.
Proof. unfold ci_eqb. apply Ascii.eqb_eq. Qed.

Lemma ci_eqb_is_space (a c : ascii) :
  ci_eqb a c = true -> is_space c = is_space a.
Proof.
  intros H. rewrite <- (is_space_lower c), <- (ci_eqb_lower _ _ H).
  apply is_space_lower.
Qed.

Lemma ci_eqb_is_digit (a c : ascii) :
  ci_eqb a c = true -> is_digit c = is_digit a.
Proof.
  intros H. rewrite <- (is_digit_lower c), <- (ci_eqb_lower _ _ H).
  apply is_digit_lower.
Qed.

Lemma ci_eqb_refl (a : ascii) : ci_eqb a a = true.
Proof. unfold ci_eqb. apply Ascii.eqb_refl. Qed.

Lemma ci_eqb_sym (a b : ascii) : ci_eqb a b = ci_eqb b a.
Proof. unfold ci_eqb. apply Ascii.eqb_sym. Qed.

Lemma ci_eqb_trans (a b c : ascii) :
  ci_eqb a b = true -> ci_eqb b c = true -> ci_eqb a c = true.
Proof.
  unfold ci_eqb. rewrite !Ascii.eqb_eq. congruence.
Qed.

(** A character equal to a given one that is not a letter, up to case, is
    that character. *)
Lemma ci_eqb_exact (a c : ascii) :
  is_upper a = false -> is_lower a = false -> ci_eqb a c = true -> c = a.
Proof.
  intros Hu Hl H. apply ci_eqb_lower in H. unfold lower in H.
  rewrite Hu in H.
  destruct (is_upper c) eqn:Hc; [|congruence].
  exfalso. subst a.
  revert Hl Hc. clear.
  destruct c as [[] [] [] [] [] [] [] []]; vm_compute; congruence.
Qed.

(** ** Running the matcher on a text that is known in part *)

#[local] Arguments Ascii.eqb : simpl never.
#[local] Arguments is_digit : simpl never.
#[local] Arguments is_space : simpl never.
#[local] Arguments ci_eqb : simpl never.
#[local] Arguments is_word : simpl never.

Ltac decide_test t :=
  let v := eval vm_compute in t in
  match v with
  | true => change t with true
  | false => change t with false
  end.

Ltac decide_char :=
  match goal with
  | |- context [Ascii.eqb ?a ?b] => decide_test (Ascii.eqb a b)
  | |- context [is_digit ?a] => decide_test (is_digit a)
  | |- context [is_space ?a] => decide_test (is_space a)
  | |- context [ci_eqb ?a ?b] => decide_test (ci_eqb a b)
  | H : is_digit ?x = _ |- context [is_digit ?x] => rewrite H
  | H : is_space ?x = _ |- context [is_space ?x] => rewrite H
  | H : Ascii.eqb ?a ?x = _ |- context [Ascii.eqb ?a ?x] => rewrite H
  | H : ci_eqb ?a ?x = _ |- context [ci_eqb ?a ?x] => rewrite H
  | H : ci_eqb ?a ?c = true |- context [is_space ?c] =>
      rewrite (ci_eqb_is_space a c H)
  | H : ci_eqb ?a ?c = true |- context [is_digit ?c] =>
      rewrite (ci_eqb_is_digit a c H)
  end.

Ltac run_matcher := cbn; repeat (decide_char; cbn).

(** Rules 1 and 2 begin with a capital S and a digit. *)
Lemma rule_1_needs_S_digit (prev : option ascii) (x : ascii) (s : text) :
  (Ascii.eqb "S" x && starts_with_digit s)%bool = false ->
  match_here (rule 0) prev (x :: s) = None.
Proof.
  intros H. unfold match_here, rule. run_matcher.
  destruct (Ascii.eqb "S" x); [|reflexivity].
  destruct s as [|y s]; cbn in *; [reflexivity|]. rewrite H. reflexivity.
Qed.

Lemma rule_2_needs_S_digit (prev : option ascii) (x : ascii) (s : text) :
  (Ascii.eqb "S" x && starts_with_digit s)%bool = false ->
  match_here (rule 1) prev (x :: s) = None.
Proof.
  intros H. unfold match_here, rule. run_matcher.
  destruct (Ascii.eqb "S" x); [|reflexivity].
  destruct s as [|y s]; cbn in *; [reflexivity|]. rewrite H. reflexivity.
Qed.

Lemma has_S_digit_cons (x : ascii) (s : text) :
  has_S_digit (x :: s) = false ->
  (Ascii.eqb "S" x && starts_with_digit s)%bool = false
  /\ has_S_digit s = false.
Proof.
  destruct s as [|y s]; cbn.
  - intros _. rewrite andb_false_r. done.
  - intros H. apply orb_false_elim in H. done.
Qed.

Lemma search_from_without_S_digit (n : nat) (prev : option ascii) (t : text) :
  (n = 0 \/ n = 1)%nat -> has_S_digit t = false ->
  search_from (rule n) prev t = None.
Proof.
  intros Hn. revert prev. induction t as [|x t IH]; intros prev H.
  - destruct Hn as [-> | ->]; reflexivity.
  - apply has_S_digit_cons in H as [H1 H2].
    cbn [search_from].
    destruct Hn as [-> | ->].
    + rewrite rule_1_needs_S_digit by done. apply IH; auto.
    + rewrite rule_2_needs_S_digit by done. apply IH; auto.
Qed.

Lemma search_without_S_digit (n : nat) (t : text) :
  (n = 0 \/ n = 1)%nat -> has_S_digit t = false -> search (rule n) t = None.
Proof.
  intros Hn H. unfold search.
  rewrite search_from_without_S_digit by done. reflexivity.
Qed.

Lemma search_from_eq (r : regex) (prev : option ascii) (s : text) :
  search_from r prev s =
  match match_here r prev s with
  | Some c => Some c
  | None =>
      match s with
      | [] => None
      | x :: s' => search_from r (Some x) s'
      end
  end.
Proof. destruct s; reflexivity. Qed.

Lemma rule_1_at_S01E02 (prev : option ascii) (post : text) :
  starts_with_digit post = false ->
  match_here (rule 0) prev (str "S01E02" ++ post)
  = Some [(2%nat, str "02"); (1%nat, str "01")].
Proof.
  intros H. unfold match_here, rule.
  destruct post as [|y post]; cbn in H; run_matcher; reflexivity.
Qed.

Lemma search_from_rule_1_S01E02 (pre post : text) (prev : option ascii) :
  has_S_digit pre = false -> starts_with_digit post = false ->
  search_from (rule 0) prev (pre ++ str "S01E02" ++ post)
  = Some [(2%nat, str "02"); (1%nat, str "01")].
Proof.
  intros Hpre Hpost. revert prev Hpre.
  induction pre as [|x pre IH]; intros prev Hpre.
  - cbn [app]. rewrite search_from_eq, rule_1_at_S01E02 by done. reflexivity.
  - apply has_S_digit_cons in Hpre as [H1 H2].
    rewrite <- app_comm_cons, search_from_eq.
    rewrite rule_1_needs_S_digit; [apply IH; done|].
    destruct pre as [|y pre]; [|exact H1].
    cbn. rewrite andb_false_r. reflexivity.
Qed.

(** The phrase [Season 1 Episode 2] in any letter case, under rule 3. *)
Lemma rule_3_at_phrase (prev : option ascii) (w post : text) :
  same_ci (str "Season 1 Episode 2") w = true ->
  starts_with_digit post = false ->
  match_here (rule 2) prev (w ++ post)
  = Some [(2%nat, str "2"); (1%nat, str "1")].
Proof.
  intros Hw Hpost.
  do 18 (destruct w as [|? w];
           [cbn in Hw; discriminate Hw
           |cbn [same_ci str list_ascii_of_string] in Hw;
            apply andb_prop in Hw as [? Hw]]).
  destruct w; [clear Hw|discriminate Hw].
  repeat match goal with
         | H : ci_eqb ?a ?c = true |- _ =>
             assert (c = a)
               by (apply ci_eqb_exact; [reflexivity|reflexivity|exact H]);
             subst c; clear H
         end.
  unfold match_here, rule.
  destruct post as [|y post]; cbn in Hpost; run_matcher; reflexivity.
Qed.

Lemma rule_3_needs_s (prev : option ascii) (x : ascii) (s : text) :
  ci_eqb "S" x = false -> match_here (rule 2) prev (x :: s) = None.
Proof. intros H. unfold match_here, rule. run_matcher. reflexivity. Qed.

Lemma search_from_rule_3_phrase (pre w post : text) (prev : option ascii) :
  forallb (fun c => negb (ci_eqb "S" c)) pre = true ->
  same_ci (str "Season 1 Episode 2") w = true ->
  starts_with_digit post = false ->
  search_from (rule 2) prev (pre ++ w ++ post)
  = Some [(2%nat, str "2"); (1%nat, str "1")].
Proof.
  intros Hpre Hw Hpost. revert prev.
  induction pre as [|x pre IH]; intros prev.
  - cbn [app]. rewrite search_from_eq, rule_3_at_phrase by done. reflexivity.
  - cbn [forallb] in Hpre. apply andb_prop in Hpre as [Hx Hpre].
    rewrite <- app_comm_cons, search_from_eq.
    rewrite rule_3_needs_s by (destruct (ci_eqb "S" x); done).
    apply IH. exact Hpre.
Qed.

(** ** The loop over the season/episode table *)

Lemma extract_season_episode_rules (t : text) :
  extract_season_episode t =
  season_episode_loop
    [ Pattern (rule 0); Pattern (rule 1); Pattern (rule 2); Pattern (rule 3);
      Pattern (rule 4); Tagged (rule 5) (None, str "episode");
      Tagged (rule 6) (None, str "episode") ] t.
Proof. reflexivity. Qed.

Lemma first_matching_rule_rules (t : text) :
  first_matching_rule t =
  first_matching
    [ Pattern (rule 0); Pattern (rule 1); Pattern (rule 2); Pattern (rule 3);
      Pattern (rule 4); Tagged (rule 5) (None, str "episode");
      Tagged (rule 6) (None, str "episode") ] t 1.
Proof. reflexivity. Qed.

(** The loop stops at the first pattern that matches, whatever follows it
    in the table. *)
Lemma season_episode_loop_first_match
    (before after : list table_entry) (r : regex) (t : text)
    (groups : list (option text)) :
  Forall (fun e => exists r', e = Pattern r' /\ search r' t = None) before ->
  search r t = Some groups ->
  season_episode_loop (before ++ Pattern r :: after) t =
  Return (item_or_none groups 0,
          if Nat.ltb 1 (length groups) then mjoin (groups !! 1%nat)
          else item_or_none groups 0).
Proof.
  intros Hbefore Hr. induction Hbefore as [|e before (r' & -> & He) _ IH].
  - cbn. rewrite Hr. reflexivity.
  - cbn. rewrite He. exact IH.
Qed.

Lemma search_groups_length (r : regex) (t : text) (groups : list (option text)) :
  search r t = Some groups -> length groups = ngroups r.
Proof.
  unfold search. destruct (search_from r None t); [|discriminate].
  intros [= <-]. rewrite length_map, length_seq. reflexivity.
Qed.

(** ** The claims on the classifiers *)

Ltac split_rules H t :=
  rewrite first_matching_rule_rules in H;
  rewrite extract_season_episode_rules;
  cbn [first_matching entry_regex season_episode_loop search_method] in H |- *;
  repeat match type of H with
         | context [search (rule ?i) t] =>
             let E := fresh "E" in
             let g := fresh "g" in
             destruct (search (rule i) t) as [g|] eqn:E;
             [ injection H as <- <-;
               apply search_groups_length in E;
               let k := eval vm_compute in (ngroups (rule i)) in
               change (ngroups (rule i)) with k in E
             | ]
         end.

(** C1: on a text that none of the first five patterns matches, such as
    [Movie.mkv], [extract_season_episode] does not return: the loop calls
    [search] on the sixth entry of the table, a tuple, and the call
    raises [AttributeError]. *)
Theorem extract_season_episode_raises_on_unmatched_text :
  extract_season_episode (str "Movie.mkv")
  = Raise (AttributeError (str "'tuple' object has no attribute 'search'")).
Proof. vm_compute. reflexivity. Qed.

(** C2: for every text whose first matching rule is rule 6 or rule 7,
    [extract_season_episode] raises [AttributeError] where the claim has
    it return no season and the matched digits as episode. *)
Theorem episode_only_rules_raise
    (t : text) (n : nat) (groups : list (option text)) :
  first_matching_rule t = Some (n, groups) ->
  n = 6%nat \/ n = 7%nat ->
  extract_season_episode t
  = Raise (AttributeError (str "'tuple' object has no attribute 'search'")).
Proof.
  intros H Hn. split_rules H t; try lia; try reflexivity.
Qed.

Lemma episode_only_rules_raise_witness :
  first_matching_rule (str "EP05") = Some (6%nat, [Some (str "05")])
  /\ extract_season_episode (str "EP05")
     = Raise (AttributeError (str "'tuple' object has no attribute 'search'")).
Proof.
  split; [vm_compute; reflexivity|].
  apply (episode_only_rules_raise (str "EP05") 6 [Some (str "05")]);
    [vm_compute; reflexivity | left; reflexivity].
Defined.



(** ** The monad *)

Lemma bind_run {A B : Type} (c : M A) (k : A -> M B) (w : world) :
  (c ≫= k) w =
  match c w with
  | (Return a, w') => k a w'
  | (Raise e, w') => (Raise e, w')
  end.
Proof. reflexivity. Qed.

Lemma db_get_run (id : Z) (key : text) (missing failed : option text)
    (w : world) :
  exists v, db_get id key missing failed w = (Return v, w).
Proof.
  unfold db_get, try_except, find_one. rewrite bind_run.
  destruct (db_up w); [destruct (users w !! id)|]; eexists; reflexivity.
Qed.

(** ** The source-selection callback *)

Lemma update_file_source_is_no_attribute
    (user_id : Z) (value : text) (w : world) :
  codeflixbots_call (str "update_file_source") user_id value w
  = (Raise (AttributeError
              (str "'Database' object has no attribute 'update_file_source'")),
     w).
Proof.
  unfold codeflixbots_call.
  change (assoc (str "update_file_source") Database_setters) with (@None text).
  cbv beta iota.
  destruct (decide (str "update_file_source" ∈ Database_other_attributes))
    as [H|H]; [|reflexivity].
  exfalso. revert H. unfold Database_other_attributes. cbn [map].
  rewrite !elem_of_cons, elem_of_nil.
  intros H. repeat (destruct H as [H|H]; [discriminate H|]). exact H.
Qed.

(** C10: the call of [update_file_source] raises [AttributeError], the
    class defining [set_file_source] only; the handler answers with the
    failure message and leaves the user collection as it was. *)
Theorem source_selection_always_fails (cq : callback_query) (w : world) :
  fst (codeflixbots_call (str "update_file_source") (cq_from_user cq)
         (source_type cq) w)
  = Raise (AttributeError
             (str "'Database' object has no attribute 'update_file_source'"))
  /\ assoc (str "set_file_source") Database_setters = Some (str "file_source")
  /\ actions (file_source_callback cq) w
     = [Answer (str "Failed to update source preference")]
  /\ users (snd (file_source_callback cq w)) = users w.
Proof.
  rewrite update_file_source_is_no_attribute.
  split; [reflexivity|]. split; [reflexivity|].
  unfold actions, file_source_callback, try_except, mbind, M_bind.
  rewrite !update_file_source_is_no_attribute. cbn. done.
Qed.

(** ** The duplicate guard *)

Lemma timedelta_seconds_days (days extra : Z) :
  0 <= extra < 86400000000 ->
  timedelta_seconds (days * 86400000000 + extra) = extra `div` 1000000.
Proof.
  intros H. unfold timedelta_seconds.
  rewrite Z.add_comm, Z.mod_add by lia.
  rewrite Z.mod_small by lia. reflexivity.
Qed.

(** Within ten seconds of the recorded time the guard refuses and leaves
    the record as it is. *)
Lemma duplicate_guard_within_window
    (file_id : text) (recorded current_time : Z) (ops : gmap text Z) :
  ops !! file_id = Some recorded ->
  0 <= current_time - recorded < 10000000 ->
  duplicate_guard file_id current_time ops = (false, ops).
Proof.
  intros Hrec H. unfold duplicate_guard. rewrite Hrec.
  replace (current_time - recorded)
    with (0 * 86400000000 + (current_time - recorded)) by lia.
  rewrite timedelta_seconds_days by lia.
  rewrite decide_True; [reflexivity|].
  apply Z.div_lt_upper_bound; lia.
Qed.

(** From ten seconds up to a day after the recorded time the guard lets
    the file through and records the new time. *)
Lemma duplicate_guard_after_window
    (file_id : text) (recorded current_time : Z) (ops : gmap text Z) :
  ops !! file_id = Some recorded ->
  10000000 <= current_time - recorded < 86400000000 ->
  duplicate_guard file_id current_time ops
  = (true, <[file_id := current_time]> ops).
Proof.
  intros Hrec H. unfold duplicate_guard. rewrite Hrec.
  replace (current_time - recorded)
    with (0 * 86400000000 + (current_time - recorded)) by lia.
  rewrite timedelta_seconds_days by lia.
  rewrite decide_False; [reflexivity|].
  apply Z.le_ngt, Z.div_le_lower_bound; lia.
Qed.

(** Once the record is released the guard lets the file through at any
    time. *)
Lemma duplicate_guard_after_release
    (file_id : text) (current_time : Z) (ops : gmap text Z) :
  duplicate_guard file_id current_time (release file_id ops)
  = (true, <[file_id := current_time]> (release file_id ops)).
Proof.
  unfold duplicate_guard, release.
  destruct (ops !! file_id) eqn:E.
  - rewrite lookup_delete_eq. reflexivity.
  - rewrite E. reflexivity.
Qed.

(** C5: a whole number of days and less than ten seconds after the
    recorded time, the guard refuses the file and keeps the old record,
    where the claim has it accept and record: [timedelta.seconds] leaves
    the days out. *)
Theorem duplicate_guard_refuses_days_later
    (file_id : text) (recorded days extra : Z) (ops : gmap text Z) :
  ops !! file_id = Some recorded ->
  0 <= extra < 10000000 ->
  duplicate_guard file_id (recorded + days * 86400000000 + extra) ops
  = (false, ops).
Proof.
  intros Hrec H. unfold duplicate_guard. rewrite Hrec.
  replace (recorded + days * 86400000000 + extra - recorded)
    with (days * 86400000000 + extra) by lia.
  rewrite timedelta_seconds_days by lia.
  rewrite decide_True; [reflexivity|].
  apply Z.div_lt_upper_bound; lia.
Qed.

Lemma duplicate_guard_refuses_days_later_witness :
  duplicate_guard (str "FID") 86405000000 {[ str "FID" := 0 ]}
  = (false, {[ str "FID" := 0 ]}).
Proof.
  apply (duplicate_guard_refuses_days_later (str "FID") 0 1 5000000);
    [apply lookup_singleton_eq | lia].
Defined.

(** ** [add_metadata] *)

Lemma add_metadata_run (o : outside) (input output : text) (user_id : Z)
    (w : world) (c : ascii) (path : text) :
  ffmpeg o = Some (c :: path) -> spawn o = Return tt ->
  exists cmd,
    let r := add_metadata o (Some input) output user_id w in
    match communicate o with
    | Elapsed =>
        trace (snd r) = Kill :: WaitFor 300 :: SubprocessExec cmd :: trace w
        /\ fst r = Raise (RuntimeError (str "FFmpeg processing timed out"))
    | Exited returncode stderr =>
        trace (snd r) = WaitFor 300 :: SubprocessExec cmd :: trace w
        /\ fst r =
           if decide (returncode ≠ 0) then
             match stderr with
             | Some err => Raise (RuntimeError (str "FFmpeg error: " ++ err))
             | None => Raise UnicodeDecodeError
             end
           else Return tt
    end.
Proof.
  intros Hffmpeg Hspawn. unfold add_metadata. rewrite Hffmpeg.
  unfold get_title, get_artist, get_author, get_video, get_audio, get_subtitle.
  repeat match goal with
         | |- context [(db_get ?i ?k ?a ?b ≫= ?f) w] =>
             rewrite (bind_run (db_get i k a b) f w);
             destruct (db_get_run i k a b w) as [? ->]
         end.
  eexists.
  unfold try_except, emit, modify, lift, raise. rewrite !bind_run. cbn.
  rewrite Hspawn. cbn.
  destruct (output_written o), (communicate o) as [|rc err]; cbn.

  all: try (split; reflexivity).
  all: destruct (decide (rc ≠ 0)), err; cbn; split; reflexivity.
Qed.



(** ** What a computation leaves as it is *)

Lemma keeps_ret {A X : Type} (f : world -> X) (a : A) : keeps f (mret a).
Proof. intros w. reflexivity. Qed.

Lemma keeps_raise {A X : Type} (f : world -> X) (e : exn) :
  keeps f (raise e : M A).
Proof. intros w. reflexivity. Qed.

Lemma keeps_lift {A X : Type} (f : world -> X) (r : res A) : keeps f (lift r).
Proof. intros w. reflexivity. Qed.

Lemma keeps_gets {A X : Type} (f : world -> X) (g : world -> A) :
  keeps f (gets g).
Proof. intros w. reflexivity. Qed.

Lemma keeps_modify {X : Type} (f : world -> X) (g : world -> world) :
  (forall w, f (g w) = f w) -> keeps f (modify g).
Proof. intros H w. apply H. Qed.

Lemma keeps_bind {A B X : Type} (f : world -> X) (c : M A) (k : A -> M B) :
  keeps f c -> (forall a, keeps f (k a)) -> keeps f (c ≫= k).
Proof.
  intros Hc Hk w. rewrite bind_run. specialize (Hc w).
  destruct (c w) as [[a|e] w1]; cbn in *; [|exact Hc].
  rewrite Hk. exact Hc.
Qed.

Lemma keeps_try_except {A X : Type} (f : world -> X) (body : M A)
    (handler : exn -> M A) :
  keeps f body -> (forall e, keeps f (handler e)) ->
  keeps f (try_except body handler).
Proof.
  intros Hb Hh w. unfold try_except. specialize (Hb w).
  destruct (body w) as [[a|e] w1]; cbn in *; [exact Hb|].
  destruct (is_exception e); [|exact Hb].
  rewrite Hh. exact Hb.
Qed.

Lemma keeps_try_finally {A X : Type} (f : world -> X) (body : M A)
    (final : M unit) :
  keeps f body -> keeps f final -> keeps f (try_finally body final).
Proof.
  intros Hb Hf w. unfold try_finally. specialize (Hb w).
  destruct (body w) as [r w1]. specialize (Hf w1).
  destruct (final w1) as [[[]|e] w2]; cbn in *; congruence.
Qed.

Ltac keeps_step :=
  lazymatch goal with
  | |- keeps _ (_ ≫= _) => apply keeps_bind; [|intros ?]
  | |- keeps _ (mret _) => apply keeps_ret
  | |- keeps _ (raise _) => apply keeps_raise
  | |- keeps _ (lift _) => apply keeps_lift
  | |- keeps _ (gets _) => apply keeps_gets
  | |- keeps _ (modify _) =>
      apply keeps_modify; first [solve [auto] | intros []; reflexivity]
  | |- keeps _ (emit _) =>
      apply keeps_modify; first [solve [auto] | intros []; reflexivity]
  | |- keeps _ (try_except _ _) => apply keeps_try_except; [|intros ?]
  | |- keeps _ (try_finally _ _) => apply keeps_try_finally
  | |- keeps _ (match ?x with _ => _ end) => destruct x
  | |- keeps _ (match ?x with _ => _ end _) => destruct x
  | |- keeps _ (if ?x then _ else _) => destruct x
  | |- keeps _ (let '(_, _) := ?x in _) => destruct x
  end; cbn beta.

Lemma keeps_db_get {X : Type} (f : world -> X) (id : Z) (key : text)
    (missing failed : option text) :
  keeps f (db_get id key missing failed).
Proof.
  intros w. destruct (db_get_run id key missing failed w) as [v ->].
  reflexivity.
Qed.

Lemma keeps_makedirs {X : Type} (f : world -> X) (name : text) :
  (forall g w, f (set_fs g w) = f w) -> keeps f (makedirs name).
Proof.
  intros Hf. unfold makedirs. generalize (length name) as fuel.
  intros fuel. revert name.
  induction fuel as [|fuel IH]; intros name; cbn [makedirs_from];
    repeat first [apply IH | keeps_step].
Qed.

Lemma keeps_cleanup_files {X : Type} (f : world -> X) (o : outside)
    (paths : list (option text)) :
  (forall g w, f (set_fs g w) = f w) -> keeps f (cleanup_files o paths).
Proof.
  intros Hf.
  induction paths as [|p paths IH]; cbn [cleanup_files]; unfold cleanup_path;
    repeat first [apply IH | keeps_step].
Qed.

Lemma keeps_process_thumbnail {X : Type} (f : world -> X) (o : outside)
    (p : option text) :
  (forall g w, f (set_fs g w) = f w) -> keeps f (process_thumbnail o p).
Proof.
  intros Hf. unfold process_thumbnail.
  repeat first [apply keeps_cleanup_files; exact Hf | keeps_step].
Qed.

(** ** The steps of a computation *)

Lemma climb_app (k : nat) (l1 l2 : list event) :
  climb k (l1 ++ l2)
  = match climb k l1 with
    | Some k' => climb k' l2
    | None => None
    end.
Proof.
  revert k. induction l1 as [|e l1 IH]; intros k; cbn; [reflexivity|].
  destruct (step_of e) as [p|]; [|apply IH].
  destruct (Nat.leb k p); [apply IH|reflexivity].
Qed.

Lemma in_steps_weaken {A : Type} (lo hi lo' hi' : nat) (c : M A) :
  in_steps lo hi c -> (lo' <= lo)%nat -> (hi <= hi')%nat ->
  in_steps lo' hi' c.
Proof.
  intros H Hlo Hhi w k Hk.
  destruct (H w k) as (new & k' & Ht & Hc & Hk'); [lia|].
  exists new, k'. split; [exact Ht|]. split; [exact Hc|lia].
Qed.

(** A computation that adds no action takes place at any step. *)
Lemma in_steps_quiet {A : Type} (lo : nat) (c : M A) :
  keeps trace c -> in_steps lo lo c.
Proof.
  intros H w k Hk. exists [], k. rewrite H. done.
Qed.

Lemma in_steps_emit_at (lo p : nat) (e : event) :
  step_of e = Some p -> (lo <= p)%nat -> in_steps lo p (emit e).
Proof.
  intros He Hp w k Hk. exists [e], p. cbn. rewrite He.
  rewrite (proj2 (Nat.leb_le k p)) by lia. done.
Qed.

Lemma in_steps_emit_none (lo : nat) (e : event) :
  step_of e = None -> in_steps lo lo (emit e).
Proof.
  intros He w k Hk. exists [e], k. cbn. rewrite He. done.
Qed.

Lemma in_steps_bind {A B : Type} (lo mid hi : nat) (c : M A) (f : A -> M B) :
  in_steps lo mid c -> (mid <= hi)%nat ->
  (forall a, in_steps mid hi (f a)) ->
  in_steps lo hi (c ≫= f).
Proof.
  intros Hc Hmid Hf w k Hk.
  destruct (Hc w k Hk) as (new & k1 & Ht & Hc1 & Hk1).
  rewrite bind_run. destruct (c w) as [[a|e] w1]; cbn in *.
  - destruct (Hf a w1 k1 Hk1) as (new' & k2 & Ht' & Hc2 & Hk2).
    exists (new' ++ new), k2. rewrite Ht', Ht, app_assoc.
    split; [done|]. rewrite rev_app_distr, climb_app, Hc1. done.
  - exists new, k1. split; [done|]. split; [done|lia].
Qed.

Lemma in_steps_try_except {A : Type} (lo mid hi : nat) (body : M A)
    (handler : exn -> M A) :
  in_steps lo mid body -> (mid <= hi)%nat ->
  (forall e, in_steps mid hi (handler e)) ->
  in_steps lo hi (try_except body handler).
Proof.
  intros Hb Hmid Hh w k Hk.
  destruct (Hb w k Hk) as (new & k1 & Ht & Hc1 & Hk1).
  unfold try_except. destruct (body w) as [[a|e] w1]; cbn in *.
  - exists new, k1. split; [done|]. split; [done|lia].
  - destruct (is_exception e).
    + destruct (Hh e w1 k1 Hk1) as (new' & k2 & Ht' & Hc2 & Hk2).
      exists (new' ++ new), k2. rewrite Ht', Ht, app_assoc.
      split; [done|]. rewrite rev_app_distr, climb_app, Hc1. done.
    + exists new, k1. split; [done|]. split; [done|lia].
Qed.

Lemma in_steps_try_finally {A : Type} (lo mid hi : nat) (body : M A)
    (final : M unit) :
  in_steps lo mid body -> in_steps mid hi final ->
  in_steps lo hi (try_finally body final).
Proof.
  intros Hb Hf w k Hk.
  destruct (Hb w k Hk) as (new & k1 & Ht & Hc1 & Hk1).
  unfold try_finally. destruct (body w) as [r w1]. cbn in *.
  destruct (Hf w1 k1 Hk1) as (new' & k2 & Ht' & Hc2 & Hk2).
  exists (new' ++ new), k2.
  destruct (final w1) as [[[]|e] w2]; cbn in *;
    rewrite Ht', Ht, app_assoc; (split; [done|]);
    rewrite rev_app_distr, climb_app, Hc1; done.
Qed.

Lemma in_steps_order {A : Type} (hi : nat) (c : M A) (w : world) :
  in_steps 0 hi c -> in_handler_order (actions c w) = true.
Proof.
  intros H. unfold in_handler_order, actions.
  destruct (H (set_trace (fun _ => []) w) 0%nat) as (new & k & Ht & Hc & _);
    [lia|].
  rewrite Ht. cbn. rewrite app_nil_r, Hc. reflexivity.
Qed.

Ltac quiet_solve :=
  solve [ repeat first
            [ apply keeps_db_get
            | apply keeps_makedirs; intros ? []; reflexivity
            | apply keeps_cleanup_files; intros ? []; reflexivity
            | apply keeps_process_thumbnail; intros ? []; reflexivity
            | keeps_step ] ].

Ltac steps_tac :=
  let bind_at lo mid hi :=
    (apply (in_steps_bind lo mid hi); [solve [repeat steps_tac] | lia | ]) in
  let except_at lo mid hi :=
    (apply (in_steps_try_except lo mid hi);
     [solve [repeat steps_tac] | lia | ]) in
  lazymatch goal with
  | |- in_steps ?lo ?hi (_ ≫= _) =>
      first [ bind_at lo lo hi | bind_at lo 1%nat hi | bind_at lo 2%nat hi
            | bind_at lo 3%nat hi | bind_at lo 4%nat hi | bind_at lo 5%nat hi
            | bind_at lo 6%nat hi ];
      intros ?
  | |- in_steps ?lo ?hi (try_except _ _) =>
      first [ except_at lo lo hi | except_at lo 1%nat hi
            | except_at lo 2%nat hi | except_at lo 3%nat hi
            | except_at lo 4%nat hi | except_at lo 5%nat hi
            | except_at lo 6%nat hi ];
      intros ?
  | |- in_steps ?lo ?hi (emit ?e) =>
      let p := eval vm_compute in (step_of e) in
      lazymatch p with
      | Some ?n =>
          apply (in_steps_weaken lo n lo hi);
          [apply in_steps_emit_at; [reflexivity | lia] | lia | lia]
      | None =>
          apply (in_steps_weaken lo lo lo hi);
          [apply in_steps_emit_none; reflexivity | lia | lia]
      end
  | |- in_steps _ _ (match ?x with _ => _ end) => destruct x
  | |- in_steps _ _ (match ?x with _ => _ end _) => destruct x
  | |- in_steps _ _ (if ?x then _ else _) => destruct x
  | |- in_steps _ _ (let '(_, _) := ?x in _) => destruct x
  | |- in_steps ?lo ?hi _ =>
      apply (in_steps_weaken lo lo lo hi);
      [apply in_steps_quiet; quiet_solve | lia | lia]
  end; cbn beta.

Lemma rename_and_upload_steps (o : outside) (message : message)
    (format_template source_type : text) (file_name : option text)
    (media_type : media_kind) (video_thumbs : list text) :
  in_steps 2 5
    (rename_and_upload o message format_template source_type file_name
       media_type video_thumbs).
Proof.
  unfold rename_and_upload, get_caption, get_thumbnail, set_paths, set_msg,
    set_thumb_path, reply_text, msg_edit, download_media, download_thumb,
    send, add_metadata, get_title, get_artist, get_author, get_video,
    get_audio, get_subtitle.
  repeat steps_tac.
Qed.

Lemma auto_rename_files_steps (o : outside) (message : message) :
  in_steps 0 6 (auto_rename_files o message).
Proof.
  unfold auto_rename_files, get_format_template, get_file_source, reply_text.
  repeat lazymatch goal with
         | |- in_steps _ _ (try_finally _ _) => fail
         | |- _ => steps_tac
         end.
  apply (in_steps_try_finally 1 6 6).
  - apply (in_steps_try_except 1 5 6); [|lia|].
    + eapply in_steps_weaken; [apply rename_and_upload_steps|lia|lia].
    + intros e. unfold report_error, msg_edit, reply_text.
      repeat steps_tac.
  - unfold clean_up. repeat steps_tac.
Qed.

(** ** The handler up to the guard *)

Lemma db_get_down (id : Z) (key : text) (missing failed : option text)
    (w : world) :
  db_up w = false -> db_get id key missing failed w = (Return failed, w).
Proof.
  intros H. unfold db_get, try_except, find_one. rewrite bind_run, H.
  reflexivity.
Qed.

Lemma db_get_unknown_user (id : Z) (key : text)
    (missing failed : option text) (w : world) :
  users w !! id = None -> db_get id key missing failed w = (Return failed, w).
Proof.
  intros H. unfold db_get, try_except, find_one. rewrite bind_run, H.
  destruct (db_up w); reflexivity.
Qed.

Lemma db_get_found (id : Z) (key : text) (missing failed : option text)
    (w : world) (d : doc) :
  db_up w = true -> users w !! id = Some d ->
  db_get id key missing failed w = (Return (default missing (d !! key)), w).
Proof.
  intros Hup H. unfold db_get, try_except, find_one. rewrite bind_run, Hup, H.
  reflexivity.
Qed.

(** The stored template of a user, as [get_format_template] gives it. *)
Lemma get_format_template_cases (id : Z) (w : world) :
  get_format_template id w
  = (Return (if db_up w
             then match users w !! id with
                  | Some d => default None (d !! str "format_template")
                  | None => None
                  end
             else None), w).
Proof.
  unfold get_format_template.
  destruct (db_up w) eqn:Hup; [|apply db_get_down, Hup].
  destruct (users w !! id) as [d|] eqn:Hd.
  - apply (db_get_found _ _ _ _ _ _ Hup Hd).
  - apply db_get_unknown_user, Hd.
Qed.

Lemma get_file_source_run (id : Z) (w : world) :
  exists v, get_file_source id w = (Return v, w).
Proof. apply db_get_run. Qed.

(** The start of a run for a user with a template: the preferences are
    read and the handler goes on to the file information. *)
Ltac start_run Htemplate :=
  rewrite get_format_template_cases in Htemplate; unfold fst in Htemplate;
  unfold auto_rename_files;
  rewrite bind_run; cbn [emit modify];
  rewrite bind_run; unfold try_except at 1; rewrite bind_run;
  match goal with
  | |- context [get_format_template ?id ?w1] =>
      rewrite (get_format_template_cases id w1);
      cbn [db_up users set_trace];
      rewrite bind_run;
      let v := fresh "source" in
      let Hv := fresh "Hsource" in
      destruct (get_file_source_run id w1) as [v Hv];
      rewrite Hv; cbn [mret M_ret]
  end;
  let t := fresh "tmpl" in
  let H := fresh in
  set (t := if db_up _ then _ else _) in *;
  injection Htemplate as H; rewrite H; clear H t.

(** A run for a user with a template and a message with a file: the
    content check is called; what it answers decides how the run goes
    on. *)
Lemma auto_rename_files_from_check
    (o : outside) (message : message) (w : world)
    (c : ascii) (template : text) (id : text) (name : option text)
    (kind : media_kind) (video_thumbs : list text) :
  fst (get_format_template (from_user message) w)
  = Return (Some (c :: template)) ->
  file_information message = Some (id, name, kind, video_thumbs) ->
  let w1 :=
    set_trace
      (fun t =>
         CheckAntiNsfw name :: Enter ContentChecked
         :: Enter PreferencesLoaded :: t) w in
  exists source,
    auto_rename_files o message w
    = match nsfw o with
      | Return true =>
          (Return tt,
           set_trace (cons (ReplyText (Plain (str "NSFW content detected"))))
             w1)
      | Raise e =>
          if is_exception e
          then (Return tt,
                set_trace
                  (cons (ReplyText
                           (Plain (str "Error during content check")))) w1)
          else (Raise e, w1)
      | Return false =>
          let w2 := set_trace (cons (Enter DuplicateChecked)) w1 in
          if fst (duplicate_guard id (now o) (renaming_operations w))
          then
            try_finally
              (try_except
                 (rename_and_upload o message (c :: template) source name
                    kind video_thumbs)
                 report_error)
              (clean_up o id)
              (set_frame (fun _ => Locals None None None false)
                 (set_renaming_operations
                    (fun _ => snd (duplicate_guard id (now o)
                                     (renaming_operations w))) w2))
          else (Return tt, w2)
      end.
Proof.
  intros Htemplate Hinfo.
  start_run Htemplate. rewrite Hinfo.
  exists (or_else source (str "filename")).
  cbv beta iota delta [try_except mbind M_bind emit modify lift gets mret
                       M_ret reply_text negb].
  destruct (nsfw o) as [[|]|e]; cbn [renaming_operations set_trace].
  - reflexivity.
  - destruct (duplicate_guard id (now o) (renaming_operations w))
      as [[|] ops']; reflexivity.
  - cbn [is_exception]. destruct (is_exception e); reflexivity.
Qed.

(** ** Removing files *)

Lemma set_fs_same (w : world) : set_fs (fun _ => fs w) w = w.
Proof. destruct w; reflexivity. Qed.

(** What one round of the loop of [cleanup_files] does to the files. *)
Lemma cleanup_path_run (o : outside) (path : option text) (w : world) :
  exists f,
    cleanup_path o path w = (Return tt, set_fs (fun _ => f) w)
    /\ f ⊆ fs w
    /\ (forall q, (forall p, path = Some p -> q <> p /\ under p q = false) ->
          f !! q = fs w !! q)
    /\ (forall p, path = Some p -> p <> [] -> remove_fails o p = false ->
          f !! p = None).
Proof.
  assert (forall p, path = Some p -> p <> [] -> fs w !! p = None \/
            remove_fails o p = true \/ path = Some [] ->
            exists f,
              (Return (), w) = (Return (), set_fs (fun _ => f) w)
              /\ f ⊆ fs w
              /\ (forall q, (forall p, path = Some p ->
                                       q <> p /\ under p q = false) ->
                    f !! q = fs w !! q)
              /\ (forall p, path = Some p -> p <> [] ->
                    remove_fails o p = false -> f !! p = None)) as Hsame.
  { intros p -> Hp Hcase. exists (fs w). rewrite set_fs_same.
    split_and!; try done.
    intros ? [= <-] _ Hfail. destruct Hcase as [?|[?|[=]]]; congruence. }
  destruct path as [[|c p]|]; cbn [cleanup_path].
  - exists (fs w). rewrite set_fs_same. split_and!; try done.
    intros ? [= <-] ?. done.
  - rewrite bind_run. unfold gets. cbn beta iota.
    match goal with
    | |- context [match ?x with Some _ => _ | None => _ end] =>
        destruct x as [k|] eqn:Hk
    end; [|apply (Hsame (c :: p)); auto].
    destruct (remove_fails o (c :: p)) eqn:Hfail;
      [apply (Hsame (c :: p)); auto|].
    destruct k; cbn [modify].
    + exists (delete (c :: p) (fs w)). split_and!.
      * reflexivity.
      * apply delete_subseteq.
      * intros q Hq. destruct (Hq _ eq_refl) as [Hne _].
        apply lookup_delete_ne. congruence.
      * intros ? [= <-] _ _. apply lookup_delete_eq.
    + exists (filter (fun e => negb (under (c :: p) (fst e)))
                (delete (c :: p) (fs w))).
      split_and!.
      * reflexivity.
      * etrans; [apply map_filter_subseteq|apply delete_subseteq].
      * intros q Hq. destruct (Hq _ eq_refl) as [Hne Hu].
        rewrite <- (lookup_delete_ne (fs w) (c :: p) q) by congruence.
        match goal with
        | |- _ = ?rhs => destruct rhs as [n|] eqn:Hn
        end.
        -- apply map_lookup_filter_Some. split; [exact Hn|].
           cbn. rewrite Hu. done.
        -- apply map_lookup_filter_None. left. exact Hn.
      * intros ? [= <-] _ _. apply map_lookup_filter_None. left.
        apply lookup_delete_eq.
  - exists (fs w). rewrite set_fs_same. split_and!; try done.
Qed.

Lemma cleanup_files_run (o : outside) (paths : list (option text))
    (w : world) :
  exists f,
    cleanup_files o paths w = (Return tt, set_fs (fun _ => f) w)
    /\ f ⊆ fs w
    /\ (forall q,
          (forall p, Some p ∈ paths -> q <> p /\ under p q = false) ->
          f !! q = fs w !! q)
    /\ (forall p, Some p ∈ paths -> p <> [] -> remove_fails o p = false ->
          f !! p = None).
Proof.
  revert w. induction paths as [|path rest IH]; intros w.
  - exists (fs w). rewrite set_fs_same. split_and!; try done.
    intros p Hp. inversion Hp.
  - cbn [cleanup_files]. rewrite bind_run.
    destruct (cleanup_path_run o path w) as (f1 & -> & Hsub1 & Hkeep1 & Hgone1).
    destruct (IH (set_fs (fun _ => f1) w))
      as (f2 & -> & Hsub2 & Hkeep2 & Hgone2).
    exists f2. cbn [fs set_fs] in *. split_and!.
    + reflexivity.
    + etrans; eassumption.
    + intros q Hq. rewrite Hkeep2, Hkeep1; [done| |].
      * intros p ->. apply Hq. left.
      * intros p Hp. apply Hq. right. exact Hp.
    + intros p Hin Hp Hfail.
      apply elem_of_cons in Hin as [<-|Hin].
      * eapply lookup_weaken_None; [|exact Hsub2]. apply Hgone1; done.
      * apply Hgone2; done.
Qed.

(** The [finally] clause returns, with the entry of the file taken out
    of the pending operations. *)
Lemma clean_up_run (o : outside) (file_id : text) (w : world) :
  exists w',
    clean_up o file_id w = (Return tt, w')
    /\ renaming_operations w' = delete file_id (renaming_operations w)
    /\ users w' = users w /\ db_up w' = db_up w /\ frame w' = frame w
    /\ fs w' ⊆ fs w
    /\ (forall p,
          p ∈ [download_path (frame w); metadata_path (frame w);
               thumb_path (frame w)] ->
          forall q, p = Some q -> q <> [] -> remove_fails o q = false ->
          fs w' !! q = None).
Proof.
  unfold clean_up. rewrite bind_run. cbn [emit modify].
  rewrite bind_run. unfold gets at 1. cbn beta iota. rewrite bind_run.
  set (w1 := set_trace (cons (Enter CleanedUp)) w).
  destruct (cleanup_files_run o
              [download_path (frame w1); metadata_path (frame w1);
               thumb_path (frame w1)] w1)
    as (f & -> & Hsub & _ & Hgone).
  eexists. split; [reflexivity|]. cbn.
  split_and!; try done.
  - unfold release. destruct (renaming_operations w !! file_id) eqn:E;
      [reflexivity|]. symmetry. apply delete_id. exact E.
  - intros p Hp q -> Hq Hfail. apply Hgone; done.
Qed.

(** ** The handler behind the guard *)

Lemma keeps_rename_and_upload {X : Type} (f : world -> X) (o : outside)
    (message : message) (format_template source_type : text)
    (file_name : option text) (media_type : media_kind)
    (video_thumbs : list text) :
  (forall g w, f (set_trace g w) = f w) ->
  (forall g w, f (set_fs g w) = f w) ->
  (forall g w, f (set_frame g w) = f w) ->
  keeps f
    (rename_and_upload o message format_template source_type file_name
       media_type video_thumbs).
Proof.
  intros Htrace Hfs Hframe.
  unfold rename_and_upload, get_caption, get_thumbnail, set_paths, set_msg,
    set_thumb_path, reply_text, msg_edit, download_media, download_thumb,
    send, add_metadata, get_title, get_artist, get_author, get_video,
    get_audio, get_subtitle, emit.
  repeat first
    [ apply keeps_db_get
    | apply keeps_makedirs; exact Hfs
    | apply keeps_process_thumbnail; exact Hfs
    | keeps_step ].
Qed.

Lemma report_error_run (e : exn) (w : world) :
  exists t,
    report_error e w
    = (Return tt, set_trace (fun l => t :: Enter Errored :: l) w).
Proof.
  unfold report_error. rewrite bind_run. cbn [emit modify].
  rewrite bind_run. unfold gets. cbn beta iota.
  destruct (msg (frame (set_trace (cons (Enter Errored)) w)));
    eexists; reflexivity.
Qed.

(** The body of the handler with its [except] clause: it leaves the
    pending operations as they are, and ends by returning unless the run
    is cancelled. *)
Lemma guarded_body_run {X : Type} (f : world -> X) (o : outside)
    (message : message) (format_template source_type : text)
    (file_name : option text) (media_type : media_kind)
    (video_thumbs : list text) (w : world) :
  (forall g w, f (set_trace g w) = f w) ->
  (forall g w, f (set_fs g w) = f w) ->
  (forall g w, f (set_frame g w) = f w) ->
  let run :=
    try_except
      (rename_and_upload o message format_template source_type file_name
         media_type video_thumbs)
      report_error w in
  f (snd run) = f w
  /\ (fst run = Return tt \/ fst run = Raise CancelledError).
Proof.
  intros Htrace Hfs Hframe. cbn zeta. unfold try_except.
  pose proof (keeps_rename_and_upload f o message format_template source_type
                file_name media_type video_thumbs Htrace Hfs Hframe w) as Hk.
  destruct (rename_and_upload o message format_template source_type file_name
              media_type video_thumbs w) as [[[]|e] w1]; cbn in *.
  - auto.
  - destruct (is_exception e) eqn:He.
    + destruct (report_error_run e w1) as [t ->]. cbn.
      rewrite Htrace. auto.
    + destruct e; try discriminate He. auto.
Qed.

Lemma guarded_run_steps (o : outside) (message : message)
    (format_template source_type : text) (file_name : option text)
    (media_type : media_kind) (video_thumbs : list text) (file_id : text) :
  in_steps 1 6
    (try_finally
       (try_except
          (rename_and_upload o message format_template source_type file_name
             media_type video_thumbs)
          report_error)
       (clean_up o file_id)).
Proof.
  apply (in_steps_try_finally 1 6 6).
  - apply (in_steps_try_except 1 5 6); [|lia|].
    + eapply in_steps_weaken; [apply rename_and_upload_steps|lia|lia].
    + intros e. unfold report_error, msg_edit, reply_text.
      repeat steps_tac.
  - unfold clean_up. repeat steps_tac.
Qed.

Lemma guard_proceeds (file_id : text) (current_time : Z) (ops : gmap text Z) :
  fst (duplicate_guard file_id current_time ops) = true ->
  snd (duplicate_guard file_id current_time ops)
  = <[file_id := current_time]> ops.
Proof.
  unfold duplicate_guard. destruct (ops !! file_id); [|done].
  destruct (decide _); done.
Qed.

(** ** The order of the steps *)




(** ** Cleanup *)

(** C8: in the sample run, which passes the guard and gets through, the
    cleanup runs last, removes the download target, the tagged output and
    the processed thumbnail and releases the pending entry, but the
    thumbnail as downloaded stays on disk: [thumb_path] was overwritten
    with the path of the processed copy. *)
Theorem cleanup_leaves_downloaded_thumbnail :
  let run := auto_rename_files sample_outside sample_message sample_world in
  fst run = Return tt
  /\ last (stages_of (actions
             (auto_rename_files sample_outside sample_message) sample_world))
     = Some CleanedUp
  /\ In (DownloadThumb (str "THUMB"))
       (actions (auto_rename_files sample_outside sample_message)
          sample_world)
  /\ fs (snd run) !! str "downloads/0105 1080p Unknown.mkv" = None
  /\ fs (snd run) !! str "metadata/0105 1080p Unknown.mkv" = None
  /\ fs (snd run) !! str "downloads/thumb.jpg_processed.jpg" = None
  /\ renaming_operations (snd run) !! str "FID" = None
  /\ fs (snd run) !! str "downloads/thumb.jpg" = Some File.
Proof.
  vm_compute. repeat split; auto 30.
Qed.

(** ** Rendering *)

Lemma same_ci_length (n w : text) : same_ci n w = true -> length n = length w.
Proof.
  revert w. induction n as [|a n IH]; intros [|b w] H; cbn in *;
    try discriminate; [reflexivity|].
  apply andb_prop in H as [_ H]. f_equal. apply IH, H.
Qed.

Lemma prefix_ci_Some (n s w : text) :
  prefix_ci n s = Some w ->
  exists rest, s = w ++ rest /\ same_ci n w = true.
Proof.
  revert s w. induction n as [|a n IH]; intros s w H.
  - cbn in H. injection H as <-. exists s. done.
  - destruct s as [|b s]; cbn in H; [discriminate|].
    destruct (ci_eqb a b) eqn:E; [|discriminate].
    destruct (prefix_ci n s) as [w'|] eqn:E'; [|discriminate].
    injection H as <-. destruct (IH _ _ E') as (rest & -> & Hs).
    exists rest. cbn. rewrite E, Hs. done.
Qed.

Lemma prefix_ci_same (n w rest : text) :
  same_ci n w = true -> prefix_ci n (w ++ rest) = Some w.
Proof.
  revert w. induction n as [|a n IH]; intros [|b w] H; cbn in *;
    try discriminate.
  - destruct rest; reflexivity.
  - apply andb_prop in H as [-> H]. rewrite (IH _ H). reflexivity.
Qed.

Lemma prefix_ci_compat (n a b : text) :
  is_Some (prefix_ci n (a ++ b)) -> compat n a = true.
Proof.
  revert a. induction n as [|x n IH]; intros [|y a] H; cbn in *; try done.
  destruct (ci_eqb x y); [|destruct H; discriminate].
  cbn. apply IH. destruct (prefix_ci n (a ++ b)); [done|].
  destruct H; discriminate.
Qed.

Lemma compat_same_ci (n a b : text) :
  same_ci a b = true -> compat n a = compat n b.
Proof.
  revert a b. induction n as [|x n IH]; intros [|y a] [|z b] H; cbn in *;
    try discriminate; try reflexivity.
  apply andb_prop in H as [Hyz H]. rewrite (IH _ _ H). f_equal.
  destruct (ci_eqb x y) eqn:E.
  - symmetry. eapply ci_eqb_trans; eassumption.
  - destruct (ci_eqb x z) eqn:E'; [|reflexivity].
    rewrite <- E. eapply ci_eqb_trans; [eassumption|].
    rewrite ci_eqb_sym. exact Hyz.
Qed.

Lemma tails_same_ci (n a b : text) :
  same_ci a b = true ->
  forallb (fun t => negb (compat n t)) (tails a) = true ->
  forallb (fun t => negb (compat n t)) (tails b) = true.
Proof.
  revert b. induction a as [|x a IH]; intros [|y b] H Ha; cbn in H;
    try discriminate; [reflexivity|].
  cbn [tails forallb] in *. apply andb_prop in Ha as [Hx Ha].
  rewrite <- (compat_same_ci n (x :: a) (y :: b)) by exact H.
  rewrite Hx. apply andb_prop in H as [_ H]. apply IH; assumption.
Qed.

(** The tail of a suffix of a needle is empty or again a suffix. *)
Lemma tails_tail (a : ascii) (t n : text) :
  a :: t ∈ tails n -> t = [] \/ t ∈ tails n.
Proof.
  induction n as [|b n IH]; cbn; intros H.
  - apply elem_of_nil in H. done.
  - apply elem_of_cons in H as [H|H].
    + injection H as -> ->. destruct n; [left; reflexivity|].
      right. cbn. apply elem_of_cons. right. apply elem_of_cons. left.
      reflexivity.
    + destruct (IH H) as [->|Ht]; [left; reflexivity|].
      right. apply elem_of_cons. right. exact Ht.
Qed.

Lemma tails_self (n : text) : n <> [] -> n ∈ tails n.
Proof. destruct n; [done|]. intros _. cbn. apply elem_of_cons. left. done. Qed.

(** *** One pass *)

Lemma replace_from_skip (n : text) (r : text -> text) (w s : text) :
  replace_from n r (length w) (w ++ s) = replace_from n r 0 s.
Proof.
  induction w as [|c w IH]; cbn [length app].
  - reflexivity.
  - cbn [replace_from]. exact IH.
Qed.

Lemma replace_from_match (n : text) (r : text -> text) (w s : text) :
  w <> [] -> prefix_ci n (w ++ s) = Some w ->
  replace_from n r 0 (w ++ s) = r w ++ replace_from n r 0 s.
Proof.
  intros Hw H. destruct w as [|c w]; [done|].
  cbn [app replace_from]. cbn [app] in H. rewrite H.
  replace (length (c :: w) - 1)%nat with (length w) by (cbn; lia).
  f_equal. apply replace_from_skip.
Qed.

Lemma replace_from_miss (n : text) (r : text -> text) (c : ascii) (s : text) :
  prefix_ci n (c :: s) = None ->
  replace_from n r 0 (c :: s) = c :: replace_from n r 0 s.
Proof. intros H. cbn [replace_from]. rewrite H. reflexivity. Qed.

(** A pass goes through a text in which the needle begins nowhere. *)
Lemma replace_from_through (n : text) (r : text -> text) (v s : text) :
  forallb (fun t => negb (compat n t)) (tails v) = true ->
  replace_from n r 0 (v ++ s) = v ++ replace_from n r 0 s.
Proof.
  induction v as [|c v IH]; intros H; [reflexivity|].
  cbn [tails forallb] in H. apply andb_prop in H as [Hc H].
  cbn [app]. rewrite replace_from_miss; [f_equal; apply IH, H|].
  destruct (prefix_ci n (c :: v ++ s)) eqn:E; [|reflexivity].
  rewrite (prefix_ci_compat n (c :: v) s) in Hc; [discriminate|].
  cbn [app]. rewrite E. done.
Qed.

Lemma replace_from_ext (n : text) (f g : text -> text) (k : nat) (s : text) :
  (forall w, f w = g w) ->
  replace_from n f k s = replace_from n g k s.
Proof.
  intros H. revert k. induction s as [|c s IH]; intros k; [reflexivity|].
  cbn [replace_from]. destruct k; [|apply IH].
  destruct (prefix_ci n (c :: s)); rewrite ?H, IH; reflexivity.
Qed.

Lemma render_from_skip (items : list (text * text)) (w s : text) :
  render_from items (length w) (w ++ s) = render_from items 0 s.
Proof.
  induction w as [|c w IH]; cbn [length app]; [reflexivity|].
  cbn [render_from]. exact IH.
Qed.

Lemma render_from_match (items : list (text * text)) (w v s : text) :
  w <> [] -> spelling_at items (w ++ s) = Some (w, v) ->
  render_from items 0 (w ++ s) = v ++ render_from items 0 s.
Proof.
  intros Hw H. destruct w as [|c w]; [done|].
  cbn [app render_from]. cbn [app] in H. rewrite H.
  replace (length (c :: w) - 1)%nat with (length w) by (cbn; lia).
  f_equal. apply render_from_skip.
Qed.

(** *** Replacement values that stand for themselves *)

Lemma parse_template_plain (v : text) :
  forallb (fun c => negb (Ascii.eqb c "\")) v = true ->
  parse_template None v = Return (map Literal v).
Proof.
  induction v as [|c v IH]; intros H; [reflexivity|].
  cbn [forallb] in H. apply andb_prop in H as [Hc H].
  cbn [parse_template]. rewrite Hc, (IH H). reflexivity.
Qed.

Lemma expand_literals (v w : text) : expand (map Literal v) w = v.
Proof.
  unfold expand. induction v as [|c v IH]; [reflexivity|].
  cbn. f_equal. exact IH.
Qed.

Lemma ordered_lookup (needles : list text) (i j : nat) (a b : text) :
  ordered needles = true -> needles !! i = Some a -> needles !! j = Some b ->
  (i < j)%nat ->
  forallb (fun t => negb (compat a t)) (tails b) = true.
Proof.
  revert i j. induction needles as [|n needles IH]; intros i j H Hi Hj Hij.
  - discriminate Hi.
  - cbn [ordered] in H. apply andb_prop in H as [Hn H].
    destruct j as [|j]; [lia|]. cbn in Hj.
    destruct i as [|i].
    + injection Hi as <-.
      rewrite forallb_forall in Hn. apply Hn.
      apply list_elem_of_In. eapply list_elem_of_lookup_2. exact Hj.
    + cbn in Hi. apply (IH i j); [assumption..|lia].
Qed.

Lemma hole_at_None (items : list (text * text)) (j : nat) (s : text) :
  hole_at items j s = None ->
  (forall n v, (n, v) ∈ items -> prefix_ci n s = None)
  /\ spelling_at items s = None.
Proof.
  revert j. induction items as [|[n v] items IH]; intros j H; cbn in *.
  - split; [|reflexivity]. intros n v Hin. apply elem_of_nil in Hin. done.
  - destruct (prefix_ci n s) eqn:E; [discriminate|].
    destruct (IH _ H) as [H1 H2]. split; [|exact H2].
    intros n' v' Hin. apply elem_of_cons in Hin as [[= -> ->]|Hin]; eauto.
Qed.

Lemma hole_at_Some (items : list (text * text)) (j i : nat) (s w : text) :
  hole_at items j s = Some (i, w) ->
  exists n v,
    (j <= i)%nat /\ items !! (i - j)%nat = Some (n, v)
    /\ prefix_ci n s = Some w /\ spelling_at items s = Some (w, v).
Proof.
  revert j. induction items as [|[n v] items IH]; intros j H; cbn in *.
  - discriminate.
  - destruct (prefix_ci n s) as [w'|] eqn:E.
    + injection H as <- <-. exists n, v. rewrite Nat.sub_diag. done.
    + destruct (IH _ H) as (n' & v' & Hle & Hl & Hp & Hs).
      exists n', v'. split; [lia|]. split; [|done].
      replace (i - j)%nat with (S (i - S j)) by lia. exact Hl.
Qed.

Section Rendering.

Variable items : list (text * text).
Hypothesis needles_nonempty : forall n v, (n, v) ∈ items -> n <> [].
Hypothesis values_inert :
  forall n v, (n, v) ∈ items -> inert (map fst items) v = true.
Hypothesis needles_ordered : ordered (map fst items) = true.

Lemma value_apart (n v n' v' : text) :
  (n, v) ∈ items -> (n', v') ∈ items -> apart n v' = true.
Proof.
  intros Hn Hv. pose proof (values_inert _ _ Hv) as H.
  unfold inert in H. apply andb_prop in H as [_ H].
  rewrite forallb_forall in H. apply H.
  apply in_map_iff. exists (n, v). split; [reflexivity|].
  apply list_elem_of_In. exact Hn.
Qed.

Lemma value_plain (n v : text) :
  (n, v) ∈ items -> forallb (fun c => negb (Ascii.eqb c "\")) v = true.
Proof.
  intros Hv. pose proof (values_inert _ _ Hv) as H.
  unfold inert in H. apply andb_prop in H as [H _].
  apply andb_prop in H as [H _]. exact H.
Qed.

(** Every template can be cut into tokens. *)
Lemma tokenized_exists (s : text) : exists ts, tokenized items s ts.
Proof.
  remember (length s) as len eqn:Hlen. revert s Hlen.
  induction len as [len IH] using lt_wf_ind. intros s ->.
  destruct s as [|c s]; [exists []; constructor|].
  destruct (hole_at items 0 (c :: s)) as [[i w]|] eqn:E.
  - apply hole_at_Some in E as (n & v & _ & Hl & Hp & Hs).
    rewrite Nat.sub_0_r in Hl.
    destruct (prefix_ci_Some _ _ _ Hp) as (rest & Hrest & Hsame).
    assert (w <> []) as Hw.
    { intros ->. apply same_ci_length in Hsame.
      apply (needles_nonempty n v); [eapply list_elem_of_lookup_2; eauto|].
      destruct n; [reflexivity|discriminate]. }
    destruct (IH (length rest)) with (s := rest) as [ts Hts];
      [|reflexivity|].
    { apply (f_equal length) in Hrest. rewrite length_app in Hrest.
      cbn [length] in *. destruct w; [done|]. cbn [length] in Hrest. lia. }
    exists (Hole i w :: ts). rewrite Hrest in *.
    econstructor; eauto.
  - apply hole_at_None in E as [H1 H2].
    destruct (IH (length s)) with (s := s) as [ts Hts];
      [cbn; lia|reflexivity|].
    exists (Lit c :: ts). constructor; assumption.
Qed.

Lemma fill_cons_lit (k : nat) (c : ascii) (ts : list token) :
  fill items k (Lit c :: ts) = c :: fill items k ts.
Proof. reflexivity. Qed.

Lemma fill_cons_hole (k i : nat) (w : text) (ts : list token) :
  fill items k (Hole i w :: ts)
  = (if Nat.ltb i k
     then match items !! i with Some (_, v) => v | None => w end
     else w) ++ fill items k ts.
Proof. reflexivity. Qed.

Lemma fill_0 (s : text) (ts : list token) :
  tokenized items s ts -> fill items 0 ts = s.
Proof.
  induction 1 as [|c s ts _ _ IH|i n v w s ts _ _ _ _ _ IH].
  - reflexivity.
  - rewrite fill_cons_lit, IH. reflexivity.
  - rewrite fill_cons_hole, IH. reflexivity.
Qed.

(** All holes filled: the rendering in one pass. *)
Lemma fill_all (s : text) (ts : list token) :
  tokenized items s ts ->
  fill items (length items) ts = render_one_pass items s.
Proof.
  unfold render_one_pass.
  induction 1 as [|c s ts Hc _ IH|i n v w s ts Hi Hw _ Hs _ IH].
  - reflexivity.
  - rewrite fill_cons_lit, IH. cbn [render_from].
    destruct (spelling_at items (c :: s)) as [[w v]|] eqn:E; [|reflexivity].
    exfalso. clear -Hc E.
    induction items as [|[n' v'] l IHl]; cbn in E; [discriminate|].
    rewrite (Hc n' v') in E by (apply elem_of_cons; left; reflexivity).
    apply IHl; [|exact E].
    intros n v0 Hin. apply (Hc n v0). apply elem_of_cons. right. exact Hin.
  - rewrite fill_cons_hole, IH, (render_from_match items w v s Hw Hs).
    apply lookup_lt_Some in Hi as Hlt.
    apply Nat.ltb_lt in Hlt. rewrite Hlt. unfold text in *. rewrite Hi. reflexivity.
Qed.

Lemma needle_suffix_tail (a : ascii) (t : text) :
  needle_suffix items (a :: t) -> needle_suffix items t.
Proof.
  intros [H|(n & v & Hin & Ht)]; [discriminate|].
  destruct (tails_tail _ _ _ Ht) as [->|Ht']; [left; reflexivity|].
  right. eauto.
Qed.

(** A match that begins before a text and holds with one continuation
    holds with every continuation that admits the same suffixes. *)
Lemma prefix_ci_continue (x rest rest' t : text) :
  (forall t', needle_suffix items t' -> is_Some (prefix_ci t' rest) ->
              is_Some (prefix_ci t' rest')) ->
  needle_suffix items t ->
  is_Some (prefix_ci t (x ++ rest)) -> is_Some (prefix_ci t (x ++ rest')).
Proof.
  intros Hrest. revert t. induction x as [|c x IH]; intros t Ht H.
  - apply Hrest; assumption.
  - destruct t as [|a t]; [cbn; eauto|].
    cbn [app prefix_ci] in *.
    destruct (ci_eqb a c); [|destruct H; discriminate].
    specialize (IH t (needle_suffix_tail _ _ Ht)).
    destruct (prefix_ci t (x ++ rest)); [|destruct H; discriminate].
    destruct IH as [w' ->]; eauto.
Qed.

(** No suffix of a placeholder matches where a value begins. *)
Lemma prefix_ci_value (n v t rest : text) :
  (n, v) ∈ items -> needle_suffix items t -> t <> [] ->
  is_Some (prefix_ci t (v ++ rest)) -> False.
Proof.
  intros Hv [->|(n' & v' & Hin & Ht)] Hne H; [done|].
  apply prefix_ci_compat in H.
  pose proof (value_apart _ _ _ _ Hin Hv) as Ha.
  unfold apart in Ha. apply andb_prop in Ha as [Ha _].
  rewrite forallb_forall in Ha.
  specialize (Ha t). rewrite H in Ha. cbn in Ha.
  discriminate Ha. apply list_elem_of_In, Ht.
Qed.

(** What matches a text with holes filled matches the template. *)
Lemma prefix_ci_unfilled (k : nat) (ts : list token) (t : text) :
  needle_suffix items t ->
  is_Some (prefix_ci t (fill items k ts)) ->
  is_Some (prefix_ci t (fill items 0 ts)).
Proof.
  revert t. induction ts as [|tok ts IH]; intros t Ht H; [exact H|].
  destruct tok as [c|i w].
  - rewrite fill_cons_lit in *.
    apply (prefix_ci_continue [c] (fill items k ts)); auto.
  - rewrite fill_cons_hole in *. cbn [Nat.ltb Nat.leb].
    destruct (Nat.ltb i k);
      [|apply (prefix_ci_continue w (fill items k ts)); auto].
    destruct (items !! i) as [[n v]|] eqn:Hi;
      [|apply (prefix_ci_continue w (fill items k ts)); auto].
    destruct t as [|a t]; [cbn; eauto|].
    exfalso. eapply (prefix_ci_value n v (a :: t)); eauto.
    eapply list_elem_of_lookup_2; eauto.
Qed.

(** One pass fills the holes of its item. *)
Lemma pass_fills (k : nat) (n v s : text) (ts : list token) :
  items !! k = Some (n, v) ->
  tokenized items s ts ->
  replace_from n (fun _ => v) 0 (fill items k ts) = fill items (S k) ts.
Proof.
  intros Hk Hts.
  assert ((n, v) ∈ items) as Hin by (eapply list_elem_of_lookup_2; eauto).
  pose proof (needles_nonempty _ _ Hin) as Hn.
  induction Hts as [|c s ts Hc Hts IH|i n' v' w s ts Hi Hw Hsame Hs Hts IH].
  - reflexivity.
  - rewrite !fill_cons_lit, replace_from_miss, IH; [reflexivity|].
    destruct (prefix_ci n (c :: fill items k ts)) eqn:E; [|reflexivity].
    exfalso.
    destruct (prefix_ci_unfilled k (Lit c :: ts) n) as [w' Hw'].
    { right. exists n, v. split; [exact Hin|apply tails_self, Hn]. }
    { rewrite fill_cons_lit, E. eauto. }
    rewrite fill_cons_lit, (fill_0 _ _ Hts), (Hc n v Hin) in Hw'.
    discriminate Hw'.
  - rewrite !fill_cons_hole. unfold text in *. rewrite Hi.
    assert ((n', v') ∈ items) as Hin'
      by (eapply list_elem_of_lookup_2; eauto).
    destruct (lt_eq_lt_dec i k) as [[Hlt| ->]|Hgt].
    + (* filled before this pass *)
      rewrite (proj2 (Nat.ltb_lt i k)), (proj2 (Nat.ltb_lt i (S k)))
        by lia.
      rewrite replace_from_through, IH; [reflexivity|].
      pose proof (value_apart _ _ _ _ Hin Hin') as Ha.
      unfold apart in Ha. apply andb_prop in Ha as [_ Ha]. exact Ha.
    + (* filled by this pass *)
      rewrite Nat.ltb_irrefl, (proj2 (Nat.ltb_lt k (S k))) by lia.
      rewrite Hk in Hi. injection Hi as <- <-.
      rewrite replace_from_match, IH; [reflexivity|exact Hw|].
      apply prefix_ci_same, Hsame.
    + (* left for a later pass *)
      rewrite (proj2 (Nat.ltb_ge i k)), (proj2 (Nat.ltb_ge i (S k)))
        by lia.
      rewrite replace_from_through, IH; [reflexivity|].
      apply (tails_same_ci n n' w Hsame).
      apply (ordered_lookup (map fst items) k i); [assumption| | |lia].
      * rewrite list_lookup_fmap, Hk. reflexivity.
      * rewrite list_lookup_fmap, Hi. reflexivity.
Qed.

Lemma passes_take (k : nat) (s : text) (ts : list token) :
  (k <= length items)%nat -> tokenized items s ts ->
  passes (take k items) s = fill items k ts.
Proof.
  intros Hk Hts. induction k as [|k IH].
  - cbn. symmetry. apply fill_0, Hts.
  - destruct (lookup_lt_is_Some_2 items k) as [[n v] Hn]; [lia|].
    rewrite (take_S_r _ _ _ Hn). unfold passes in *.
    rewrite fold_left_app, IH by lia. cbn [fold_left fst snd].
    assert (n <> []) as Hne
      by (eapply needles_nonempty, list_elem_of_lookup_2; eauto).
    unfold replace_all. destruct n as [|a n]; [done|].
    apply (pass_fills k (a :: n) v s ts Hn Hts).
Qed.

(** The passes of the loop give the rendering in one pass. *)
Lemma passes_render_one_pass (s : text) :
  passes items s = render_one_pass items s.
Proof.
  destruct (tokenized_exists s) as [ts Hts].
  rewrite <- (fill_all _ _ Hts), <- (passes_take (length items) s ts);
    [|lia|exact Hts].
  rewrite firstn_all. reflexivity.
Qed.

(** The loop of the handler, on values that stand for themselves. *)
Lemma replace_placeholders_passes (l : list (text * text)) (s : text) :
  (forall n v, (n, v) ∈ l -> (n, v) ∈ items) ->
  replace_placeholders (map (fun item => (fst item, Some (snd item))) l) s
  = Return (passes l s).
Proof.
  revert s. induction l as [|[n v] l IH]; intros s Hl; [reflexivity|].
  cbn [map replace_placeholders fst snd].
  unfold re_sub_escaped_ignorecase.
  rewrite parse_template_plain
    by (apply (value_plain n), Hl, elem_of_cons; left; reflexivity).
  rewrite IH by (intros; apply Hl, elem_of_cons; right; assumption).
  unfold passes. cbn [fold_left fst snd]. do 2 f_equal.
  unfold replace_all. destruct n; [|apply replace_from_ext, expand_literals].
  f_equal; [apply expand_literals|].
  apply flat_map_ext. intros c. f_equal. apply expand_literals.
Qed.

End Rendering.

Lemma resolved_placeholders (season episode : option text) (quality : text)
    (audio_info : option text) :
  map fst (resolved season episode quality audio_info) = placeholders.
Proof. reflexivity. Qed.

Lemma replacements_resolved (season episode : option text) (quality : text)
    (audio_info : option text) :
  replacements season episode (Some quality) audio_info
  = map (fun item => (fst item, Some (snd item)))
      (resolved season episode quality audio_info).
Proof. reflexivity. Qed.

(** The loop of the handler renders in one pass when the four values are
    inert. *)
Lemma replace_placeholders_one_pass (template : text)
    (season episode : option text) (quality : text)
    (audio_info : option text) :
  let items := resolved season episode quality audio_info in
  forallb (inert placeholders) (map snd items) = true ->
  replace_placeholders
    (replacements season episode (Some quality) audio_info) template
  = Return (render_one_pass items template).
Proof.
  intros items Hinert.
  assert (forall n v, (n, v) ∈ items -> n <> []) as Hne.
  { intros n v Hin Hn. subst n.
    apply (list_elem_of_fmap_2 fst) in Hin. cbn [fst] in Hin.
    change (fst <$> items) with placeholders in Hin.
    revert Hin. unfold placeholders, resolved. cbn [map fst].
    rewrite !elem_of_cons, elem_of_nil.
    intros H. repeat (destruct H as [H|H]; [discriminate H|]). exact H. }
  assert (forall n v, (n, v) ∈ items -> inert (map fst items) v = true)
    as Hin.
  { intros n v Hv. rewrite forallb_forall in Hinert. apply Hinert.
    apply in_map_iff. exists (n, v). split; [reflexivity|].
    apply list_elem_of_In, Hv. }
  rewrite replacements_resolved.
  rewrite (replace_placeholders_passes items Hin) by auto.
  f_equal. apply passes_render_one_pass; [exact Hne|exact Hin|reflexivity].
Qed.




(** ** The example of the specification *)

Lemma compat_digit (x y : ascii) (a b : text) :
  is_digit x = false -> is_digit y = true -> compat (x :: a) (y :: b) = false.
Proof.
  intros Hx Hy. cbn [compat].
  destruct (ci_eqb x y) eqn:E; [|reflexivity].
  apply ci_eqb_is_digit in E. congruence.
Qed.

Lemma apart_digits (x y : ascii) (n v : text) :
  forallb (fun x => negb (is_digit x)) (x :: n) = true ->
  forallb is_digit (y :: v) = true ->
  apart (x :: n) (y :: v) = true.
Proof.
  intros Hn Hv. unfold apart. apply andb_true_intro.
  cbn [forallb] in Hn, Hv.
  apply andb_prop in Hv as [Hy Hv]. apply andb_prop in Hn as [Hx Hn].
  apply negb_true_iff in Hx.
  split.
  - assert (forall u, forallb (fun x => negb (is_digit x)) u = true ->
              forallb (fun n' => negb (compat n' (y :: v))) (tails u) = true)
      as H.
    { induction u as [|a u IH]; [reflexivity|]. cbn [forallb tails].
      intros Hu. apply andb_prop in Hu as [Ha Hu].
      apply negb_true_iff in Ha.
      rewrite (IH Hu), andb_true_r, compat_digit; done. }
    apply (H (x :: n)). cbn [forallb]. rewrite Hx, Hn. reflexivity.
  - assert (forall u, forallb is_digit u = true ->
              forallb (fun v' => negb (compat (x :: n) v')) (tails u) = true)
      as H.
    { induction u as [|a u IH]; [reflexivity|]. cbn [forallb tails].
      intros Hu. apply andb_prop in Hu as [Ha Hu].
      rewrite (IH Hu), andb_true_r, compat_digit; done. }
    apply (H (y :: v)). cbn [forallb]. rewrite Hy, Hv. reflexivity.
Qed.

(** A number is inert for the placeholders of the handler. *)
Lemma inert_digits (c : ascii) (w : text) :
  forallb is_digit (c :: w) = true -> inert placeholders (c :: w) = true.
Proof.
  intros Hv. unfold inert.
  apply andb_true_intro. split; [apply andb_true_intro; split|].
  - apply forallb_forall. intros x Hx.
    rewrite forallb_forall in Hv. specialize (Hv x Hx).
    destruct (Ascii.eqb x "\") eqn:E; [|reflexivity].
    apply Ascii.eqb_eq in E. subst x. vm_compute in Hv. discriminate Hv.
  - reflexivity.
  - assert (forallb (fun n => match n with
                              | [] => false
                              | _ :: _ =>
                                  forallb (fun x => negb (is_digit x)) n
                              end) placeholders = true) as Hp
      by (vm_compute; reflexivity).
    apply forallb_forall. intros n Hn.
    rewrite forallb_forall in Hp. specialize (Hp n Hn).
    destruct n as [|x n]; [discriminate Hp|].
    apply apart_digits; assumption.
Qed.

Lemma inert_number_or_XX (v : option text) :
  digits_or_none v = true -> inert placeholders (or_else v (str "XX")) = true.
Proof.
  destruct v as [[|c w]|]; intros H; [reflexivity| |reflexivity].
  apply inert_digits, H.
Qed.

Lemma anime_example_rendering (season episode : option text) :
  digits_or_none season = true -> digits_or_none episode = true ->
  replace_placeholders
    (replacements season episode (Some (str "1080p")) None)
    (str "{season}{episode} {quality} {audio}")
  = Return (or_else season (str "XX") ++ or_else episode (str "XX")
            ++ str " 1080p Unknown").
Proof.
  intros Hs He.
  rewrite replace_placeholders_one_pass.
  - unfold resolved.
    generalize (or_else season (str "XX")) (or_else episode (str "XX")).
    intros s e. vm_compute. reflexivity.
  - cbn [resolved map snd forallb].
    rewrite !(inert_number_or_XX season Hs), !(inert_number_or_XX episode He).
    reflexivity.
Qed.



